(** * NftProtocolsManager: the registry of NFT protocols

    A shallow embedding of [src/platform/nf-token/nft-protocols-manager.cpp]
    and the properties of its operations: registration, height-qualified
    lookup, retraction and reverse pagination over the height index. *)

From stdpp Require Import gmap list sorting strings.
From Stdlib Require Import ZArith Lia.

Open Scope Z_scope.

Module Platform.

(** ** Chain and protocol value types *)

(** Modelled from the spec: [uint256] and [CKeyID] are fixed-width
    identifiers declared outside this file; only [IsNull] (all bits zero,
    the spec's "empty") is ever asked of them here. *)
Definition uint256 := Z.
Definition CKeyID := Z.

Definition IsNull (h : Z) : bool := h =? 0.

(** Modelled from the spec: a block reference exposes a height and a
    hash. [nHeight] is a C++ [int]; [GetBlockHash] returns [*phashBlock]. *)
Record CBlockIndex := mkBlockIndex {
  nHeight : Z;
  phashBlock : uint256
}.

Definition GetBlockHash (b : CBlockIndex) : uint256 := phashBlock b.

(** Modelled from the spec: a transaction reference exposes its hash. *)
Record CTransaction := mkTransaction {
  GetHash : uint256
}.

(** Modelled from the spec: the protocol descriptor holds the protocol
    id (a [uint64_t]), the owner's key id, and protocol-specific metadata,
    which is opaque here. *)
Record NfTokenProtocol := mkProtocol {
  tokenProtocolId : Z;
  tokenProtocolOwnerId : CKeyID;
  tokenProtocolMetadata : string
}.

(** Modelled from the spec: one registration event, built as
    [NftProtoIndex(pindex, txHash, nftProtoPtr)]. The null index (no
    descriptor) is [None] of [option NftProtoIndex]. *)
Record NftProtoIndex := mkProtoIndex {
  BlockIndex : CBlockIndex;
  RegTxHash : uint256;
  NftProtoPtr : NfTokenProtocol
}.

Definition ProtocolId (e : NftProtoIndex) : Z := tokenProtocolId (NftProtoPtr e).
Definition Height (e : NftProtoIndex) : Z := nHeight (BlockIndex e).

(** ** The multi-key index [NftProtoIndexSet] *)

(** Modelled from the spec: the container's declaration is in the header,
    which is not part of the source file. Its contract is a unique key
    [protocolId] and a non-unique ascending order by [blockHeight]. The
    list is the sequence of the height view; an entry that ties with
    others on height goes after them. *)
Abbreviation NftProtoIndexSet := (list NftProtoIndex).

(** [find(protocolId)] on the unique view. *)
Fixpoint set_find (protocolId : Z) (s : NftProtoIndexSet) : option NftProtoIndex :=
  match s with
  | [] => None
  | e :: r => if ProtocolId e =? protocolId then Some e else set_find protocolId r
  end.

Fixpoint insert_by_height (e : NftProtoIndex) (s : NftProtoIndexSet) : NftProtoIndexSet :=
  match s with
  | [] => [e]
  | x :: r => if Height x <=? Height e then x :: insert_by_height e r else e :: x :: r
  end.

(** [emplace]: the pair of the resulting container and the [second]
    component of the C++ result; on success [*first] is the argument. *)
Definition set_emplace (e : NftProtoIndex) (s : NftProtoIndexSet) : NftProtoIndexSet * bool :=
  match set_find (ProtocolId e) s with
  | Some _ => (s, false)
  | None => (insert_by_height e s, true)
  end.

(** [erase(it)] for the iterator that [find(protocolId)] returned. *)
Fixpoint set_erase (protocolId : Z) (s : NftProtoIndexSet) : NftProtoIndexSet :=
  match s with
  | [] => []
  | e :: r => if ProtocolId e =? protocolId then r else e :: set_erase protocolId r
  end.

(** [get<Tags::Height>().range(unbounded, curHeight <= height)]: the
    height view from its beginning up to the first entry that fails the
    upper bound. *)
Fixpoint range_upto (height : Z) (s : NftProtoIndexSet) : list NftProtoIndex :=
  match s with
  | [] => []
  | e :: r => if Height e <=? height then e :: range_upto height r else []
  end.

(** The invariants of the container: I1 (unique ids) and the ascending
    height order of the secondary view. *)
Definition unique_ids (s : NftProtoIndexSet) : Prop := NoDup (ProtocolId <$> s).
Definition height_sorted (s : NftProtoIndexSet) : Prop := Sorted Z.le (Height <$> s).

(** ** The persistent store [PlatformDb] *)

(** Modelled from the spec: [PlatformDb] is declared and defined outside
    the source file. It is a key-value service: a scalar counter, which a
    fresh store does not hold, and index records keyed by protocol id. *)
Record PlatformDb := mkDb {
  dbTotalProtocolCount : option Z;
  dbNftProtoIndex : gmap Z NftProtoIndex
}.

Definition emptyDb : PlatformDb := mkDb None ∅.

(** Modelled from the spec: [ReadTotalProtocolCount(count)] fills the
    reference when the counter is stored and leaves it as it is otherwise. *)
Definition ReadTotalProtocolCount (db : PlatformDb) (count : Z) : Z :=
  default count (dbTotalProtocolCount db).

Definition WriteTotalProtocolCount (count : Z) (db : PlatformDb) : PlatformDb :=
  mkDb (Some count) (dbNftProtoIndex db).

Definition ReadNftProtoIndex (protocolId : Z) (db : PlatformDb) : option NftProtoIndex :=
  dbNftProtoIndex db !! protocolId.

(** Modelled from the spec: the disk index of an entry is written under
    the entry's protocol id. *)
Definition WriteNftProtoDiskIndex (e : NftProtoIndex) (db : PlatformDb) : PlatformDb :=
  mkDb (dbTotalProtocolCount db) (<[ProtocolId e := e]> (dbNftProtoIndex db)).

Definition EraseNftProtoDiskIndex (protocolId : Z) (db : PlatformDb) : PlatformDb :=
  mkDb (dbTotalProtocolCount db) (delete protocolId (dbNftProtoIndex db)).

(** Modelled from the spec: [ScanAllEntries] streams every persisted entry
    to the handler; a handler that answers [false] makes the store log
    the record and go on with the next one, as the spec has it for the
    constructor (a colliding entry is skipped and logged, non-fatal). The
    result is the handler's final state and the records it refused, in
    stream order. *)
Fixpoint scan_records {S : Type} (handler : NftProtoIndex -> S -> S * bool)
    (records : list NftProtoIndex) (st : S) : S * list NftProtoIndex :=
  match records with
  | [] => (st, [])
  | e :: r =>
      let '(st1, ok) := handler e st in
      let '(st2, refused) := scan_records handler r st1 in
      (st2, if ok then refused else e :: refused)
  end.

(** Modelled from the spec: the other reading of [ScanAllEntries], in
    which the handler's answer tells whether to continue, so that the scan
    ends at the first [false]. *)
Fixpoint scan_records_until {S : Type} (handler : NftProtoIndex -> S -> S * bool)
    (records : list NftProtoIndex) (st : S) : S :=
  match records with
  | [] => st
  | e :: r =>
      let '(st1, ok) := handler e st in
      if ok then scan_records_until handler r st1 else st1
  end.

Definition db_stream (db : PlatformDb) : list NftProtoIndex :=
  snd <$> map_to_list (dbNftProtoIndex db).

Definition ProcessNftProtoIndexGutsOnly {S : Type} (handler : NftProtoIndex -> S -> S * bool)
    (db : PlatformDb) (st : S) : S * list NftProtoIndex :=
  scan_records handler (db_stream db) st.

(** The store keeps each record under its own protocol id. *)
Definition db_keyed (db : PlatformDb) : Prop :=
  forall k e, dbNftProtoIndex db !! k = Some e -> ProtocolId e = k.

(** ** The registry state *)

(** Modelled from the spec: the members are declared in the header. The
    counter is an integer, the tip is a height and a block hash. *)
Record NftProtocolsManager := mkManager {
  m_nftProtoIndexSet : NftProtoIndexSet;
  m_totalProtocolsCount : Z;
  m_tipHeight : Z;
  m_tipBlockHash : uint256
}.

(** The manager together with the process-wide [PlatformDb::Instance()]. *)
Record World := mkWorld {
  this : NftProtocolsManager;
  platformDb : PlatformDb
}.

(** ** Operations that may hit a failed assertion

    An operation either returns a value and the state it leaves, or stops
    at a failed [assert] (or a null dereference) with the state reached
    so far. *)
Inductive outcome (A : Type) : Type :=
| Ok (a : A) (w : World)
| Fault (w : World).
Arguments Ok {A} a w.
Arguments Fault {A} w.

Definition M (A : Type) : Type := World -> outcome A.

Definition ret {A} (a : A) : M A := fun w => Ok a w.

Definition bind {A B} (m : M A) (k : A -> M B) : M B :=
  fun w => match m w with
           | Ok a w1 => k a w1
           | Fault w1 => Fault w1
           end.

Definition fault {A} : M A := fun w => Fault w.

Definition assert (b : bool) : M unit := if b then ret tt else fault.

Definition getThis : M NftProtocolsManager := fun w => Ok (this w) w.
Definition putThis (m : NftProtocolsManager) : M unit := fun w => Ok tt (mkWorld m (platformDb w)).
Definition getDb : M PlatformDb := fun w => Ok (platformDb w) w.
Definition modifyDb (f : PlatformDb -> PlatformDb) : M unit :=
  fun w => Ok tt (mkWorld (this w) (f (platformDb w))).

Declare Scope mgr_scope.
Delimit Scope mgr_scope with mgr.
Notation "'let*' x := m 'in' k" := (bind m (fun x => k))
  (at level 10, x name, m at level 100, k at level 200) : mgr_scope.
Notation "m ;; k" := (bind m (fun _ => k))
  (at level 100, k at level 200, right associativity) : mgr_scope.
Open Scope mgr_scope.

Definition set_index (s : NftProtoIndexSet) (m : NftProtocolsManager) : NftProtocolsManager :=
  mkManager s (m_totalProtocolsCount m) (m_tipHeight m) (m_tipBlockHash m).

Definition set_count (c : Z) (m : NftProtocolsManager) : NftProtocolsManager :=
  mkManager (m_nftProtoIndexSet m) c (m_tipHeight m) (m_tipBlockHash m).

(** [m_nftProtoIndexSet.emplace(e).second], with the container updated. *)
Definition emplace (e : NftProtoIndex) : M bool :=
  let* m := getThis in
  let '(s, ok) := set_emplace e (m_nftProtoIndexSet m) in
  putThis (set_index s m) ;;
  ret ok.

Section Manager.

(** Constants of the headers: the reserved protocol id and the default
    member initialisers of the tip fields. *)
Variable UNKNOWN_TOKEN_PROTOCOL : Z.
Variable default_tipHeight : Z.
Variable default_tipBlockHash : uint256.

(** [NftProtocolsManager::NftProtocolsManager()]: the manager built over a
    store, and the records the scan reported as refused.
    Modelled from the spec: the counter's default member initialiser is
    zero (a fresh registry counts no entries). *)
Definition NftProtocolsManager_ctor (db : PlatformDb) : NftProtocolsManager * list NftProtoIndex :=
  let count := ReadTotalProtocolCount db 0 in
  let '(s, refused) :=
    ProcessNftProtoIndexGutsOnly (fun protoIndex s => set_emplace protoIndex s) db [] in
  (mkManager s count default_tipHeight default_tipBlockHash, refused).

Definition construct (db : PlatformDb) : World :=
  mkWorld (fst (NftProtocolsManager_ctor db)) db.

(** [GetNftProtoIndexFromDb] *)
Definition GetNftProtoIndexFromDb (protocolId : Z) : M (option NftProtoIndex) :=
  let* db := getDb in
  match ReadNftProtoIndex protocolId db with
  | Some protoIndex =>
      let* insRes := emplace protoIndex in
      assert insRes ;;
      ret (Some protoIndex)
  | None => ret None
  end.

(** [GetNftProtoIndex] *)
Definition GetNftProtoIndex (protocolId : Z) : M (option NftProtoIndex) :=
  assert (negb (protocolId =? UNKNOWN_TOKEN_PROTOCOL)) ;;
  let* m := getThis in
  match set_find protocolId (m_nftProtoIndexSet m) with
  | Some e => ret (Some e)
  | None => GetNftProtoIndexFromDb protocolId
  end.

(** [Contains(protocolId, height)] *)
Definition Contains (protocolId : Z) (height : Z) : M bool :=
  assert (negb (protocolId =? UNKNOWN_TOKEN_PROTOCOL)) ;;
  assert (0 <=? height) ;;
  let* nftProtoIdx := GetNftProtoIndex protocolId in
  match nftProtoIdx with
  | Some e => ret (Height e <=? height)
  | None => ret false
  end.

(** [Contains(protocolId)] *)
Definition Contains_tip (protocolId : Z) : M bool :=
  assert (negb (protocolId =? UNKNOWN_TOKEN_PROTOCOL)) ;;
  let* m := getThis in
  Contains protocolId (m_tipHeight m).

(** [OwnerOf]: the miss path dereferences the descriptor of whatever the
    store returned; on a null index that is a fault. *)
Definition OwnerOf (protocolId : Z) : M CKeyID :=
  assert (negb (protocolId =? UNKNOWN_TOKEN_PROTOCOL)) ;;
  let* m := getThis in
  match set_find protocolId (m_nftProtoIndexSet m) with
  | Some e => ret (tokenProtocolOwnerId (NftProtoPtr e))
  | None =>
      let* r := GetNftProtoIndexFromDb protocolId in
      match r with
      | Some e => ret (tokenProtocolOwnerId (NftProtoPtr e))
      | None => fault
      end
  end.

(** [AddNftProto]; a null [pindex] is [None]. *)
Definition AddNftProto (nftProto : NfTokenProtocol) (tx : CTransaction)
    (pindex : option CBlockIndex) : M bool :=
  assert (negb (tokenProtocolId nftProto =? UNKNOWN_TOKEN_PROTOCOL)) ;;
  assert (negb (IsNull (tokenProtocolOwnerId nftProto))) ;;
  match pindex with
  | None => fault
  | Some blockIndex =>
      assert (negb (IsNull (GetHash tx))) ;;
      let nftProtoIndex := mkProtoIndex blockIndex (GetHash tx) nftProto in
      let* itRes := emplace nftProtoIndex in
      if itRes then
        modifyDb (WriteNftProtoDiskIndex nftProtoIndex) ;;
        let* m := getThis in
        let count := m_totalProtocolsCount m + 1 in
        putThis (set_count count m) ;;
        modifyDb (WriteTotalProtocolCount count) ;;
        ret true
      else ret false
  end.

(** [Delete(protocolId, height)] *)
Definition Delete (protocolId : Z) (height : Z) : M bool :=
  assert (negb (protocolId =? UNKNOWN_TOKEN_PROTOCOL)) ;;
  assert (0 <=? height) ;;
  let* m := getThis in
  match set_find protocolId (m_nftProtoIndexSet m) with
  | Some e =>
      if Height e <=? height then
        putThis (set_index (set_erase protocolId (m_nftProtoIndexSet m)) m) ;;
        modifyDb (EraseNftProtoDiskIndex protocolId) ;;
        let* m1 := getThis in
        let count := m_totalProtocolsCount m1 - 1 in
        putThis (set_count count m1) ;;
        modifyDb (WriteTotalProtocolCount count) ;;
        ret true
      else ret false
  | None => ret false
  end.

(** [Delete(protocolId)] *)
Definition Delete_tip (protocolId : Z) : M bool :=
  let* m := getThis in
  Delete protocolId (m_tipHeight m).

(** [UpdateBlockTip] *)
Definition UpdateBlockTip (pindex : option CBlockIndex) : M unit :=
  match pindex with
  | None => fault
  | Some b =>
      let* m := getThis in
      putThis (mkManager (m_nftProtoIndexSet m) (m_totalProtocolsCount m)
                 (nHeight b) (GetBlockHash b))
  end.

(** ** Sequences of calls

    The calls a client can make between two observable points, and the
    tally of the [AddNftProto] and [Delete] calls that answered [true]. *)
Inductive Call :=
| CallAddNftProto (nftProto : NfTokenProtocol) (tx : CTransaction) (pindex : option CBlockIndex)
| CallContains (protocolId height : Z)
| CallContains_tip (protocolId : Z)
| CallGetNftProtoIndex (protocolId : Z)
| CallOwnerOf (protocolId : Z)
| CallDelete (protocolId height : Z)
| CallDelete_tip (protocolId : Z)
| CallUpdateBlockTip (pindex : option CBlockIndex).

Record Tally := mkTally {
  added : Z;
  deleted : Z
}.

Definition balance (t : Tally) : Z := added t - deleted t.

Definition count_add (ok : bool) (t : Tally) : Tally :=
  if ok then mkTally (added t + 1) (deleted t) else t.

Definition count_delete (ok : bool) (t : Tally) : Tally :=
  if ok then mkTally (added t) (deleted t + 1) else t.

Definition call (c : Call) (t : Tally) : M Tally :=
  match c with
  | CallAddNftProto nftProto tx pindex =>
      let* ok := AddNftProto nftProto tx pindex in ret (count_add ok t)
  | CallContains protocolId height => Contains protocolId height ;; ret t
  | CallContains_tip protocolId => Contains_tip protocolId ;; ret t
  | CallGetNftProtoIndex protocolId => GetNftProtoIndex protocolId ;; ret t
  | CallOwnerOf protocolId => OwnerOf protocolId ;; ret t
  | CallDelete protocolId height =>
      let* ok := Delete protocolId height in ret (count_delete ok t)
  | CallDelete_tip protocolId =>
      let* ok := Delete_tip protocolId in ret (count_delete ok t)
  | CallUpdateBlockTip pindex => UpdateBlockTip pindex ;; ret t
  end.

Fixpoint calls (cs : list Call) (t : Tally) : M Tally :=
  match cs with
  | [] => ret t
  | c :: r => let* t1 := call c t in calls r t1
  end.

End Manager.

(** ** Pagination over the height view *)

(** A C++ [int]. *)
Definition in_int (z : Z) : bool := (- 2 ^ 31 <=? z) && (z <? 2 ^ 31).

(** [std::prev(originalRange.second, n)]: iterators of the height view are
    positions [0 .. size]; the range ends at position [rangeSize]. Moving
    an iterator before the beginning or past the end of the container is
    undefined. *)
Definition std_prev (s : NftProtoIndexSet) (rangeEnd n : Z) : option nat :=
  let pos := rangeEnd - n in
  if (0 <=? pos) && (pos <=? Z.of_nat (length s)) then Some (Z.to_nat pos) else None.

(** The entries between two positions of the height view. *)
Definition between (b e : nat) (s : NftProtoIndexSet) : list NftProtoIndex :=
  take (e - b) (drop b s).

(** The range-for loop: every entry is handed to the handler; a [false]
    answer logs one line and the loop goes on. The result is the sequence
    of entries the handler was called on and the number of logged lines. *)
Fixpoint visit (protoIndexHandler : NftProtoIndex -> bool) (l : list NftProtoIndex)
    : list NftProtoIndex * nat :=
  match l with
  | [] => ([], 0%nat)
  | e :: r =>
      let '(calls, logged) := visit protoIndexHandler r in
      (e :: calls, if protoIndexHandler e then logged else S logged)
  end.

(** [finalRange] of [ProcessNftProtoIndexRangeByHeight]; [None] when the
    arithmetic overflows [int] or an iterator leaves the container, or
    when [begin] lies behind [end]. *)
Definition finalRange (s : NftProtoIndexSet) (height count startFrom : Z)
    : option (list NftProtoIndex) :=
  let rangeSize := Z.of_nat (length (range_upto height s)) in
  if in_int (startFrom + count) then
    let reverseBegin := if rangeSize <? startFrom then rangeSize else startFrom in
    let reverseEnd := if rangeSize <? startFrom + count then 0 else reverseBegin - count in
    match std_prev s rangeSize reverseBegin, std_prev s rangeSize reverseEnd with
    | Some b, Some e => if (b <=? e)%nat then Some (between b e s) else None
    | _, _ => None
    end
  else None.

(** [ProcessNftProtoIndexRangeByHeight] on a manager. *)
Definition ProcessNftProtoIndexRangeByHeight (protoIndexHandler : NftProtoIndex -> bool)
    (m : NftProtocolsManager) (height count startFrom : Z)
    : option (list NftProtoIndex * nat) :=
  visit protoIndexHandler <$> finalRange (m_nftProtoIndexSet m) height count startFrom.

(** ** The full range *)

(** The order of the primary key. *)
Definition id_le (a b : NftProtoIndex) : Prop := ProtocolId a <= ProtocolId b.

#[global] Instance id_le_dec : RelDecision id_le :=
  fun a b => Z_le_dec (ProtocolId a) (ProtocolId b).

(** Modelled from the spec: the range-for over the container itself goes
    through the primary view, in primary-key order. *)
Definition primary_view (s : NftProtoIndexSet) : list NftProtoIndex :=
  merge_sort id_le s.

(** [ProcessFullNftProtoIndexRange]: the entries the handler was called
    on and the number of logged lines. *)
Definition ProcessFullNftProtoIndexRange (protoIndexHandler : NftProtoIndex -> bool)
    (m : NftProtocolsManager) : list NftProtoIndex * nat :=
  visit protoIndexHandler (primary_view (m_nftProtoIndexSet m)).

(** The entries of a list that a handler refuses. *)
Definition refused_by (protoIndexHandler : NftProtoIndex -> bool)
    (l : list NftProtoIndex) : list NftProtoIndex :=
  filter (fun e => protoIndexHandler e = false) l.

(** ** The height-qualified range and the page *)

(** The range [R] of the pagination: the entries registered at or below
    [height], in the order of the height view. *)
Definition qualified (height : Z) (s : NftProtoIndexSet) : list NftProtoIndex :=
  filter (fun e => Height e <= height) s.

(** The window as the specification computes it:
    [offsetFromEnd = min(n, startFrom)], [dropFromEnd = 0] if
    [n < startFrom + count] and [offsetFromEnd - count] otherwise, and the
    window is [R[n - offsetFromEnd : n - dropFromEnd]]. *)
Definition offsetFromEnd (n startFrom : Z) : Z := Z.min n startFrom.

Definition dropFromEnd (n count startFrom : Z) : Z :=
  if n <? startFrom + count then 0 else offsetFromEnd n startFrom - count.

Definition page_window (R : list NftProtoIndex) (count startFrom : Z) : list NftProtoIndex :=
  let n := Z.of_nat (length R) in
  between (Z.to_nat (n - offsetFromEnd n startFrom))
          (Z.to_nat (n - dropFromEnd n count startFrom)) R.

(** ** Cache and store *)

(** The world after the in-memory index took the entry [e] that a lookup
    fetched from the store. *)
Definition cache_fill (e : NftProtoIndex) (w : World) : World :=
  mkWorld (set_index (insert_by_height e (m_nftProtoIndexSet (this w))) (this w))
          (platformDb w).

(** The world after a successful [AddNftProto] of the entry [e]: index,
    store record, and the counter incremented in memory and on disk. *)
Definition after_add (e : NftProtoIndex) (w : World) : World :=
  let m := this w in
  let count := m_totalProtocolsCount m + 1 in
  mkWorld (mkManager (insert_by_height e (m_nftProtoIndexSet m)) count
             (m_tipHeight m) (m_tipBlockHash m))
          (WriteTotalProtocolCount count (WriteNftProtoDiskIndex e (platformDb w))).

(** The world after a successful [Delete] of [protocolId]. *)
Definition after_delete (protocolId : Z) (w : World) : World :=
  let m := this w in
  let count := m_totalProtocolsCount m - 1 in
  mkWorld (mkManager (set_erase protocolId (m_nftProtoIndexSet m)) count
             (m_tipHeight m) (m_tipBlockHash m))
          (WriteTotalProtocolCount count (EraseNftProtoDiskIndex protocolId (platformDb w))).

(** The counter equals the size of the index, and the index holds every
    id that the store holds. *)
Definition counted (w : World) : Prop :=
  m_totalProtocolsCount (this w) = Z.of_nat (length (m_nftProtoIndexSet (this w)))
  /\ forall id, is_Some (ReadNftProtoIndex id (platformDb w)) ->
               is_Some (set_find id (m_nftProtoIndexSet (this w))).

(** Where index and store both hold an id, they hold the same entry. *)
Definition cache_coherent (w : World) : Prop :=
  forall id e e',
    set_find id (m_nftProtoIndexSet (this w)) = Some e ->
    ReadNftProtoIndex id (platformDb w) = Some e' -> e = e'.

(** An entry of the index and the record that the store keeps under the
    entry's id, when there is one, are the same. *)
Definition index_agrees_with_store (w : World) : Prop :=
  forall e e',
    e ∈ m_nftProtoIndexSet (this w) ->
    dbNftProtoIndex (platformDb w) !! ProtocolId e = Some e' -> e = e'.

(** The well-formed worlds: I1, the height order of the secondary view, a
    store keyed by protocol id, and a cache that agrees with the store. *)
Definition wf_world (w : World) : Prop :=
  unique_ids (m_nftProtoIndexSet (this w))
  /\ height_sorted (m_nftProtoIndexSet (this w))
  /\ db_keyed (platformDb w)
  /\ cache_coherent w.

(** What a query may do to the world: nothing, or one cache fill. *)
Definition filled (w w1 : World) : Prop :=
  w1 = w
  \/ exists e,
      ReadNftProtoIndex (ProtocolId e) (platformDb w) = Some e
      /\ set_find (ProtocolId e) (m_nftProtoIndexSet (this w)) = None
      /\ w1 = cache_fill e w.

(** The index answers for an id exactly as the store does. *)
Definition mirrors (w : World) : Prop :=
  forall id,
    set_find id (m_nftProtoIndexSet (this w)) = ReadNftProtoIndex id (platformDb w).

(** The counter a restart would read is the counter in memory. *)
Definition counter_synced (w : World) : Prop :=
  ReadTotalProtocolCount (platformDb w) 0 = m_totalProtocolsCount (this w).

(** What a lookup may do to the world over any store: nothing, or the
    insertion of one entry under an id the index did not hold. *)
Definition grown (w w1 : World) : Prop :=
  w1 = w
  \/ exists id e,
      set_find id (m_nftProtoIndexSet (this w)) = None
      /\ ReadNftProtoIndex id (platformDb w) = Some e
      /\ set_find (ProtocolId e) (m_nftProtoIndexSet (this w)) = None
      /\ w1 = cache_fill e w.

(** The world after [UpdateBlockTip] of the block [b]. *)
Definition after_tip (b : CBlockIndex) (w : World) : World :=
  mkWorld (mkManager (m_nftProtoIndexSet (this w)) (m_totalProtocolsCount (this w))
             (nHeight b) (GetBlockHash b))
          (platformDb w).

(** The arguments on which [AddNftProto] fails an assertion. *)
Definition add_args_invalid (reserved : Z) (nftProto : NfTokenProtocol) (tx : CTransaction)
    (pindex : option CBlockIndex) : Prop :=
  tokenProtocolId nftProto = reserved
  \/ IsNull (tokenProtocolOwnerId nftProto) = true
  \/ pindex = None
  \/ IsNull (GetHash tx) = true.

(** What holds of every world reached over a store keyed by protocol id:
    I1, the keyed store, the index as a mirror of the store, and the
    persisted counter in step with the one in memory. *)
Definition steady (w : World) : Prop :=
  unique_ids (m_nftProtoIndexSet (this w))
  /\ db_keyed (platformDb w)
  /\ mirrors w
  /\ counter_synced w.

(** ** A registry with one entry at each of the heights 1 to 5 *)

Definition entry_at (id height : Z) : NftProtoIndex :=
  mkProtoIndex (mkBlockIndex height (1000 + height)) (2000 + id)
    (mkProtocol id (3000 + id) "nft"%string).

Definition set5 : NftProtoIndexSet :=
  foldr (fun e s => fst (set_emplace e s)) []
    [entry_at 15 5; entry_at 12 2; entry_at 14 4; entry_at 11 1; entry_at 13 3].

Definition mgr5 : NftProtocolsManager := mkManager set5 5 5 1005.

Definition visited_heights (r : option (list NftProtoIndex * nat)) : option (list Z) :=
  match r with
  | Some (calls, _) => Some (Height <$> calls)
  | None => None
  end.

Definition world5 : World := mkWorld mgr5 emptyDb.

(** A store whose stream carries protocol id 7 a second time before it
    reaches the record of protocol 9. *)
Definition interrupted_db : PlatformDb :=
  mkDb (Some 3)
       (<[1 := entry_at 9 1]>
          (<[2 := entry_at 7 3]> (<[3 := entry_at 7 4]> (<[4 := entry_at 8 2]> ∅)))).

(** A store in which two records carry protocol id 7. *)
Definition colliding_db : PlatformDb :=
  mkDb (Some 2)
       (<[1 := entry_at 7 3]> (<[2 := entry_at 7 4]> (<[3 := entry_at 9 1]> ∅))).

(** A session: two registrations, a repeated one, queries, a retraction
    that is too early and one that goes through. *)
Definition session : list Call :=
  [ CallUpdateBlockTip (Some (mkBlockIndex 4 1004));
    CallAddNftProto (mkProtocol 21 77 "a"%string) (mkTransaction 501) (Some (mkBlockIndex 4 1004));
    CallAddNftProto (mkProtocol 22 78 "b"%string) (mkTransaction 502) (Some (mkBlockIndex 6 1006));
    CallAddNftProto (mkProtocol 21 79 "c"%string) (mkTransaction 503) (Some (mkBlockIndex 6 1006));
    CallContains 21 4;
    CallOwnerOf 22;
    CallGetNftProtoIndex 23;
    CallDelete_tip 22;
    CallDelete 21 5 ].

(** The five entries in the index; the store holds protocol 13 as the
    index does, and protocol 7, which the index has not cached. *)
Definition mixed_world : World :=
  mkWorld mgr5
          (WriteNftProtoDiskIndex (entry_at 13 3)
             (WriteNftProtoDiskIndex (entry_at 7 3) emptyDb)).

(** A handler that refuses the entries registered at height 4. *)
Definition refuse_height_4 (e : NftProtoIndex) : bool := negb (Height e =? 4).

(** A store that holds protocol 7, registered at height 3, under a
    manager whose index is empty. *)
Definition uncached_world : World :=
  mkWorld (mkManager [] 1 5 1005)
          (WriteTotalProtocolCount 1 (WriteNftProtoDiskIndex (entry_at 7 3) emptyDb)).

(** ** The container's contract *)

Section Container.

Implicit Types (s : NftProtoIndexSet) (e x : NftProtoIndex) (id : Z).

Lemma set_find_Some id s e :
  set_find id s = Some e -> ProtocolId e = id /\ e ∈ s.
Proof.
  induction s as [|x r IH]; simpl; [discriminate|].
  destruct (Z.eqb_spec (ProtocolId x) id) as [Heq|Hne].
  - intros [= ->]. split; [assumption | left].
  - intros H. destruct (IH H) as [? ?]. split; [assumption | by right].
Qed.

Lemma set_find_None id s :
  set_find id s = None <-> id ∉ ProtocolId <$> s.
Proof.
  induction s as [|x r IH]; simpl.
  - split; [intros _; apply not_elem_of_nil | reflexivity].
  - rewrite not_elem_of_cons.
    destruct (Z.eqb_spec (ProtocolId x) id) as [Heq|Hne].
    + split; [discriminate | intros [? _]; congruence].
    + rewrite IH. split; [intros ?; split; [congruence | assumption] | intros [_ ?]; assumption].
Qed.

Lemma set_find_elem s e :
  unique_ids s -> e ∈ s -> set_find (ProtocolId e) s = Some e.
Proof.
  unfold unique_ids. induction s as [|x r IH]; simpl.
  - intros _ H. by apply elem_of_nil in H.
  - rewrite NoDup_cons. intros [Hx Hr] [->|Hin]%elem_of_cons.
    + by rewrite Z.eqb_refl.
    + destruct (Z.eqb_spec (ProtocolId x) (ProtocolId e)) as [Heq|Hne]; [|by apply IH].
      exfalso. apply Hx. rewrite Heq. by apply list_elem_of_fmap_2.
Qed.

Lemma insert_by_height_perm e s : insert_by_height e s ≡ₚ e :: s.
Proof.
  induction s as [|x r IH]; simpl; [reflexivity|].
  destruct (Height x <=? Height e); [|reflexivity].
  rewrite IH. apply Permutation_swap.
Qed.

Lemma length_insert_by_height e s :
  length (insert_by_height e s) = S (length s).
Proof. by rewrite insert_by_height_perm. Qed.

Lemma elem_of_insert_by_height x e s :
  x ∈ insert_by_height e s <-> x = e \/ x ∈ s.
Proof. by rewrite insert_by_height_perm, elem_of_cons. Qed.

Lemma set_find_insert_ne id e s :
  ProtocolId e <> id -> set_find id (insert_by_height e s) = set_find id s.
Proof.
  intros Hne. induction s as [|x r IH]; simpl.
  - by apply Z.eqb_neq in Hne as ->.
  - destruct (Height x <=? Height e); simpl.
    + by rewrite IH.
    + by apply Z.eqb_neq in Hne as ->.
Qed.

Lemma set_find_insert_eq e s :
  set_find (ProtocolId e) s = None ->
  set_find (ProtocolId e) (insert_by_height e s) = Some e.
Proof.
  induction s as [|x r IH]; simpl.
  - by rewrite Z.eqb_refl.
  - destruct (Z.eqb_spec (ProtocolId x) (ProtocolId e)) as [Heq|Hne]; [discriminate|].
    intros H. destruct (Height x <=? Height e); simpl.
    + apply Z.eqb_neq in Hne as ->. by apply IH.
    + by rewrite Z.eqb_refl.
Qed.

Lemma unique_ids_insert e s :
  set_find (ProtocolId e) s = None -> unique_ids s ->
  unique_ids (insert_by_height e s).
Proof.
  unfold unique_ids. intros Hnone Hu.
  rewrite (insert_by_height_perm e s). simpl.
  apply NoDup_cons. split; [by apply set_find_None | assumption].
Qed.

Lemma height_sorted_insert e s :
  height_sorted s -> height_sorted (insert_by_height e s).
Proof.
  unfold height_sorted. induction s as [|x r IH]; simpl; intros Hs.
  - repeat constructor.
  - apply Sorted_inv in Hs as [Hr Hhd].
    destruct (Z.leb_spec (Height x) (Height e)) as [Hle|Hgt]; simpl.
    + constructor; [by apply IH|].
      destruct r as [|y r']; simpl in *.
      * by constructor.
      * destruct (Height y <=? Height e); simpl; constructor;
          [by apply HdRel_inv in Hhd | assumption].
    + constructor; [by constructor | constructor; lia].
Qed.

Lemma set_erase_perm id s e :
  set_find id s = Some e -> s ≡ₚ e :: set_erase id s.
Proof.
  induction s as [|x r IH]; simpl; [discriminate|].
  destruct (ProtocolId x =? id).
  - by intros [= ->].
  - intros H. rewrite (IH H) at 1. apply Permutation_swap.
Qed.

Lemma length_set_erase id s e :
  set_find id s = Some e -> length s = S (length (set_erase id s)).
Proof. intros H. by rewrite (set_erase_perm id s e H) at 1. Qed.

Lemma set_find_erase_ne id id' s :
  id' <> id -> set_find id (set_erase id' s) = set_find id s.
Proof.
  intros Hne. induction s as [|x r IH]; simpl; [reflexivity|].
  destruct (Z.eqb_spec (ProtocolId x) id') as [Heq|Hne']; simpl.
  - assert (ProtocolId x <> id) as ->%Z.eqb_neq by congruence. reflexivity.
  - by rewrite IH.
Qed.

Lemma unique_ids_erase id s : unique_ids s -> unique_ids (set_erase id s).
Proof.
  unfold unique_ids. destruct (set_find id s) as [e|] eqn:Hf.
  - rewrite (set_erase_perm id s e Hf) at 1. simpl. by intros [_ ?]%NoDup_cons.
  - assert (set_erase id s = s) as ->; [|done].
    clear -Hf. induction s as [|x r IH]; simpl in *; [reflexivity|].
    destruct (ProtocolId x =? id); [discriminate|]. by rewrite IH.
Qed.

Lemma set_find_erase_eq id s :
  unique_ids s -> set_find id (set_erase id s) = None.
Proof.
  unfold unique_ids. induction s as [|x r IH]; simpl; [reflexivity|].
  rewrite NoDup_cons. intros [Hx Hr].
  destruct (Z.eqb_spec (ProtocolId x) id) as [Heq|Hne]; simpl.
  - apply set_find_None. by rewrite <- Heq.
  - apply Z.eqb_neq in Hne as ->. by apply IH.
Qed.

Lemma height_sorted_erase id s : height_sorted s -> height_sorted (set_erase id s).
Proof.
  unfold height_sorted. intros Hs.
  apply (StronglySorted_Sorted). apply Sorted_StronglySorted in Hs; [|intros ???; lia].
  induction s as [|x r IH]; simpl in *; [constructor|].
  apply StronglySorted_inv in Hs as [Hr Hall].
  destruct (ProtocolId x =? id); [assumption|]. simpl.
  constructor; [by apply IH|].
  rewrite Forall_forall in Hall |- *. intros h Hh. apply Hall.
  apply list_elem_of_fmap in Hh as (y & -> & Hy). apply list_elem_of_fmap.
  exists y. split; [reflexivity|].
  clear -Hy. induction r as [|z r IH]; simpl in *; [assumption|].
  destruct (ProtocolId z =? id); [by right|].
  apply elem_of_cons in Hy as [->|Hy]; [left | right; by apply IH].
Qed.

End Container.

(** ** Pagination: the window is what the position formula says *)

Section Pagination.

Implicit Types (s R : list NftProtoIndex) (height count startFrom : Z).

Lemma range_upto_take height s :
  range_upto height s = take (length (range_upto height s)) s.
Proof.
  induction s as [|x r IH]; simpl; [reflexivity|].
  destruct (Height x <=? height); simpl; [by rewrite <- IH | reflexivity].
Qed.

Lemma length_range_upto height s :
  (length (range_upto height s) <= length s)%nat.
Proof.
  induction s as [|x r IH]; simpl; [lia|].
  destruct (Height x <=? height); simpl; lia.
Qed.

Lemma qualified_none height s :
  Forall (fun e => height < Height e) s -> qualified height s = [].
Proof.
  unfold qualified. induction 1 as [|x r Hx _ IH]; [reflexivity|].
  rewrite filter_cons_False by lia. exact IH.
Qed.

Lemma range_upto_qualified height s :
  height_sorted s -> range_upto height s = qualified height s.
Proof.
  unfold height_sorted, qualified. intros Hs.
  apply Sorted_StronglySorted in Hs; [|intros ???; lia].
  induction s as [|x r IH]; [reflexivity|].
  rewrite fmap_cons in Hs. apply StronglySorted_inv in Hs as [Hr Hall].
  cbn [range_upto]. rewrite filter_cons. destruct (Z.leb_spec (Height x) height) as [Hle|Hgt].
  - rewrite decide_True by assumption. by rewrite IH.
  - rewrite decide_False by lia. symmetry.
    apply (qualified_none height r).
    rewrite Forall_fmap in Hall. eapply Forall_impl; [exact Hall|].
    simpl. intros; lia.
Qed.

Lemma range_upto_none height s :
  Forall (fun e => height < Height e) s -> range_upto height s = [].
Proof.
  destruct 1 as [|x r Hx _]; simpl; [reflexivity|].
  by destruct (Z.leb_spec (Height x) height); [lia|].
Qed.

Lemma height_sorted_qualified height s :
  height_sorted s -> height_sorted (qualified height s).
Proof.
  unfold height_sorted, qualified. intros Hs.
  apply Sorted_StronglySorted in Hs; [|intros ???; lia].
  apply StronglySorted_Sorted.
  induction s as [|x r IH]; [constructor|].
  rewrite fmap_cons in Hs. apply StronglySorted_inv in Hs as [Hr Hall].
  rewrite filter_cons. destruct (decide (Height x <= height)); [|by apply IH].
  rewrite fmap_cons. constructor; [by apply IH|].
  rewrite Forall_forall in Hall |- *. intros h Hh. apply Hall.
  apply list_elem_of_fmap in Hh as (y & -> & Hy).
  apply list_elem_of_filter in Hy as [_ Hy]. by apply list_elem_of_fmap_2.
Qed.

Lemma between_take (b e n : nat) s :
  (e <= n)%nat -> between b e s = between b e (take n s).
Proof.
  intros Hen. unfold between.
  destruct (decide (b <= n)%nat) as [Hbn|Hbn].
  - replace n with (b + (n - b))%nat at 1 by lia.
    rewrite <- take_drop_commute, take_take. f_equal. lia.
  - replace (e - b)%nat with 0%nat by lia. reflexivity.
Qed.

Lemma height_sorted_between (b e : nat) s :
  height_sorted s -> height_sorted (between b e s).
Proof.
  unfold height_sorted, between. intros Hs.
  apply Sorted_StronglySorted in Hs; [|intros ???; lia].
  apply StronglySorted_Sorted.
  rewrite fmap_take, fmap_drop.
  rewrite <- (take_drop b (Height <$> s)) in Hs.
  apply StronglySorted_app_1_r in Hs.
  rewrite <- (take_drop (e - b) (drop b (Height <$> s))) in Hs.
  by apply StronglySorted_app_1_l in Hs.
Qed.

Lemma visit_calls (f : NftProtoIndex -> bool) (l : list NftProtoIndex) :
  fst (visit f l) = l.
Proof.
  induction l as [|x r IH]; simpl; [reflexivity|].
  destruct (visit f r) as [calls logged]. simpl in *. by rewrite IH.
Qed.

(** The page as positions of the range [R]: [R[n - offsetFromEnd : n -
    dropFromEnd]], when [dropFromEnd] is within [0 .. offsetFromEnd]. *)
Lemma finalRange_positions s height count startFrom :
  let R := range_upto height s in
  let n := Z.of_nat (length R) in
  let offsetFromEnd := Z.min n startFrom in
  let dropFromEnd := if n <? startFrom + count then 0 else offsetFromEnd - count in
  0 <= startFrom -> in_int (startFrom + count) = true ->
  0 <= dropFromEnd <= offsetFromEnd ->
  finalRange s height count startFrom
  = Some (between (Z.to_nat (n - offsetFromEnd)) (Z.to_nat (n - dropFromEnd)) R).
Proof.
  intros R n rb re HsF Hint Hre. unfold finalRange. rewrite Hint.
  fold R. fold n.
  assert ((if n <? startFrom then n else startFrom) = rb) as ->.
  { unfold rb. destruct (Z.ltb_spec n startFrom); lia. }
  fold re.
  pose proof (length_range_upto height s) as Hlen. fold R in Hlen.
  unfold std_prev.
  assert (0 <= n - rb <= Z.of_nat (length s)) as Hb by (unfold rb, n in *; lia).
  assert (0 <= n - re <= Z.of_nat (length s)) as He by (unfold rb, n in *; lia).
  rewrite !(proj2 (andb_true_iff _ _)) by (split; apply Z.leb_le; lia).
  assert (Z.to_nat (n - rb) <= Z.to_nat (n - re))%nat as Hbe by lia.
  apply Nat.leb_le in Hbe as ->. f_equal.
  transitivity (between (Z.to_nat (n - rb)) (Z.to_nat (n - re)) (take (length R) s)).
  - apply between_take. unfold n. lia.
  - unfold R. by rewrite <- range_upto_take.
Qed.

Lemma finalRange_window s height count startFrom :
  let n := Z.of_nat (length (qualified height s)) in
  height_sorted s -> 0 <= startFrom -> in_int (startFrom + count) = true ->
  0 <= dropFromEnd n count startFrom <= offsetFromEnd n startFrom ->
  finalRange s height count startFrom
  = Some (page_window (qualified height s) count startFrom).
Proof.
  intros n Hs HsF Hint Hdef. subst n.
  rewrite <- (range_upto_qualified height s Hs) in *.
  by apply finalRange_positions.
Qed.

Lemma page_window_nil count startFrom : page_window [] count startFrom = [].
Proof. unfold page_window, between. by rewrite drop_nil, take_nil. Qed.

(** The two shapes of the window: the clamped one and the inner one. *)
Lemma page_window_clamped R count startFrom :
  let n := Z.of_nat (length R) in
  0 <= startFrom -> n < startFrom + count ->
  page_window R count startFrom = drop (Z.to_nat (n - Z.min n startFrom)) R.
Proof.
  intros n HsF Hlt. unfold page_window, dropFromEnd, offsetFromEnd. fold n.
  apply Z.ltb_lt in Hlt as ->. unfold between.
  apply take_ge. rewrite length_drop. unfold n. lia.
Qed.

Lemma page_window_inner R count startFrom :
  let n := Z.of_nat (length R) in
  0 <= count <= startFrom -> startFrom + count <= n ->
  page_window R count startFrom
  = take (Z.to_nat count) (drop (Z.to_nat (n - startFrom)) R).
Proof.
  intros n Hc Hge. unfold page_window, dropFromEnd, offsetFromEnd. fold n.
  assert ((n <? startFrom + count) = false) as -> by (apply Z.ltb_ge; lia).
  unfold between. replace (Z.min n startFrom) with startFrom by lia.
  f_equal. lia.
Qed.

End Pagination.

(** ** What a page visits *)

Section PageClaims.

Variable protoIndexHandler : NftProtoIndex -> bool.

Lemma Process_calls (m : NftProtocolsManager) (height count startFrom : Z)
    (window : list NftProtoIndex) :
  finalRange (m_nftProtoIndexSet m) height count startFrom = Some window ->
  exists logged,
    ProcessNftProtoIndexRangeByHeight protoIndexHandler m height count startFrom
    = Some (window, logged).
Proof.
  intros H. unfold ProcessNftProtoIndexRangeByHeight. rewrite H. simpl.
  pose proof (visit_calls protoIndexHandler window) as Hc.
  destruct (visit protoIndexHandler window) as [cs logged]. simpl in Hc. subst cs.
  by exists logged.
Qed.

(** X18. With [R] the entries of height at most [height] in ascending
    height order and [n] its size, for [startFrom >= 0] and
    [startFrom + count] within [int], a page whose positions are in order
    ([0 <= dropFromEnd <= offsetFromEnd]) hands the visitor
    exactly [R[n - offsetFromEnd : n - dropFromEnd]], in ascending height
    order: the last [min n startFrom] entries of [R] when
    [n < startFrom + count], and otherwise the [count] entries that begin
    [startFrom] entries before the end of [R]. *)
Theorem page_visits_window (m : NftProtocolsManager) (height count startFrom : Z) :
  let R := qualified height (m_nftProtoIndexSet m) in
  let n := Z.of_nat (length R) in
  height_sorted (m_nftProtoIndexSet m) ->
  0 <= startFrom -> in_int (startFrom + count) = true ->
  0 <= dropFromEnd n count startFrom <= offsetFromEnd n startFrom ->
  (exists logged,
      ProcessNftProtoIndexRangeByHeight protoIndexHandler m height count startFrom
      = Some (page_window R count startFrom, logged))
  /\ height_sorted (page_window R count startFrom)
  /\ (n < startFrom + count ->
      page_window R count startFrom = drop (Z.to_nat (n - Z.min n startFrom)) R)
  /\ (startFrom + count <= n ->
      page_window R count startFrom
      = take (Z.to_nat count) (drop (Z.to_nat (n - startFrom)) R)).
Proof.
  intros R n Hs HsF Hint Hdef. repeat split.
  - apply Process_calls. by apply finalRange_window.
  - by apply height_sorted_between, height_sorted_qualified.
  - intros Hlt. by apply page_window_clamped.
  - intros Hge. apply page_window_inner; [|assumption].
    unfold dropFromEnd, offsetFromEnd in Hdef. fold n in Hge.
    assert ((n <? startFrom + count) = false) as Hf by (apply Z.ltb_ge; lia).
    rewrite Hf in Hdef. lia.
Qed.

(** X19. For [count >= 0], [startFrom >= 0] and [startFrom + count]
    within [int], over an index in height order: the visitor sees nothing
    when every stored height is above [height], and when [count] is zero
    and [startFrom] is at most [n]. When [startFrom] is at least [n] and
    [n < startFrom + count], the code's two clamps make the page the
    whole of [R]. *)
Theorem page_empty_or_clamped (m : NftProtocolsManager) (height count startFrom : Z) :
  let R := qualified height (m_nftProtoIndexSet m) in
  let n := Z.of_nat (length R) in
  height_sorted (m_nftProtoIndexSet m) ->
  0 <= count -> 0 <= startFrom -> in_int (startFrom + count) = true ->
  (Forall (fun e => height < Height e) (m_nftProtoIndexSet m) ->
   ProcessNftProtoIndexRangeByHeight protoIndexHandler m height count startFrom
   = Some ([], 0%nat))
  /\ (count = 0 -> startFrom <= n ->
      ProcessNftProtoIndexRangeByHeight protoIndexHandler m height count startFrom
      = Some ([], 0%nat))
  /\ (n <= startFrom -> n < startFrom + count ->
      exists logged,
        ProcessNftProtoIndexRangeByHeight protoIndexHandler m height count startFrom
        = Some (R, logged)).
Proof.
  intros R n Hs Hc HsF Hint.
  pose proof (finalRange_window (m_nftProtoIndexSet m) height count startFrom Hs HsF Hint)
    as Hwin.
  fold R in Hwin. fold n in Hwin. simpl in Hwin.
  repeat split.
  - intros Habove. unfold ProcessNftProtoIndexRangeByHeight.
    assert (R = []) as HR by (by apply qualified_none).
    rewrite Hwin.
    + rewrite HR, page_window_nil. reflexivity.
    + unfold dropFromEnd, offsetFromEnd, n. rewrite HR.
      change (Z.of_nat (length [])) with 0.
      destruct (Z.ltb_spec 0 (startFrom + count)); lia.
  - intros -> Hle. unfold ProcessNftProtoIndexRangeByHeight. rewrite Hwin.
    + rewrite page_window_inner by lia. reflexivity.
    + unfold dropFromEnd, offsetFromEnd.
      destruct (Z.ltb_spec n (startFrom + 0)); lia.
  - intros Hle Hlt. apply Process_calls. rewrite Hwin.
    + rewrite page_window_clamped by lia. fold n.
      replace (Z.to_nat (n - Z.min n startFrom)) with 0%nat by lia. reflexivity.
    + unfold dropFromEnd, offsetFromEnd.
      apply Z.ltb_lt in Hlt as ->. lia.
Qed.

End PageClaims.

(** ** The operations of the registry *)

Ltac unfold_m :=
  unfold emplace, assert;
  unfold bind, ret, fault, getThis, putThis, getDb, modifyDb.

Section ManagerClaims.

Variable UNKNOWN_TOKEN_PROTOCOL : Z.
Variable default_tipHeight : Z.
Variable default_tipBlockHash : uint256.

Local Abbreviation call := (call UNKNOWN_TOKEN_PROTOCOL).
Local Abbreviation calls := (calls UNKNOWN_TOKEN_PROTOCOL).
Local Abbreviation construct := (construct default_tipHeight default_tipBlockHash).
Local Abbreviation GetNftProtoIndex := (GetNftProtoIndex UNKNOWN_TOKEN_PROTOCOL).
Local Abbreviation Contains := (Contains UNKNOWN_TOKEN_PROTOCOL).
Local Abbreviation Contains_tip := (Contains_tip UNKNOWN_TOKEN_PROTOCOL).
Local Abbreviation OwnerOf := (OwnerOf UNKNOWN_TOKEN_PROTOCOL).
Local Abbreviation AddNftProto := (AddNftProto UNKNOWN_TOKEN_PROTOCOL).
Local Abbreviation Delete := (Delete UNKNOWN_TOKEN_PROTOCOL).
Local Abbreviation Delete_tip := (Delete_tip UNKNOWN_TOKEN_PROTOCOL).

Implicit Types (w : World) (e : NftProtoIndex) (id protocolId height : Z).

Lemma known_id id :
  id <> UNKNOWN_TOKEN_PROTOCOL -> negb (id =? UNKNOWN_TOKEN_PROTOCOL) = true.
Proof. intros H. by apply Z.eqb_neq in H as ->. Qed.

(** *** The fallback to the store *)

Lemma FromDb_miss w id :
  ReadNftProtoIndex id (platformDb w) = None ->
  GetNftProtoIndexFromDb id w = Ok None w.
Proof. intros H. unfold GetNftProtoIndexFromDb. unfold_m. by rewrite H. Qed.

Lemma FromDb_hit w id e :
  ReadNftProtoIndex id (platformDb w) = Some e ->
  set_find (ProtocolId e) (m_nftProtoIndexSet (this w)) = None ->
  GetNftProtoIndexFromDb id w = Ok (Some e) (cache_fill e w).
Proof.
  intros H Hnone. unfold GetNftProtoIndexFromDb, set_emplace. unfold_m.
  rewrite H. simpl. unfold set_emplace. by rewrite Hnone.
Qed.

Lemma GetNftProtoIndex_cached w id e :
  id <> UNKNOWN_TOKEN_PROTOCOL ->
  set_find id (m_nftProtoIndexSet (this w)) = Some e ->
  GetNftProtoIndex id w = Ok (Some e) w.
Proof.
  intros Hid Hf. unfold Platform.GetNftProtoIndex. unfold_m.
  rewrite (known_id id Hid). simpl. by rewrite Hf.
Qed.

Lemma GetNftProtoIndex_uncached w id :
  id <> UNKNOWN_TOKEN_PROTOCOL ->
  set_find id (m_nftProtoIndexSet (this w)) = None ->
  GetNftProtoIndex id w = GetNftProtoIndexFromDb id w.
Proof.
  intros Hid Hf. unfold Platform.GetNftProtoIndex. unfold_m.
  rewrite (known_id id Hid). simpl. by rewrite Hf.
Qed.

Lemma Contains_lookup w id height :
  id <> UNKNOWN_TOKEN_PROTOCOL -> 0 <= height ->
  Contains id height w =
  match GetNftProtoIndex id w with
  | Ok (Some e) w1 => Ok (Height e <=? height) w1
  | Ok None w1 => Ok false w1
  | Fault w1 => Fault w1
  end.
Proof.
  intros Hid Hh. unfold Platform.Contains. unfold_m.
  rewrite (known_id id Hid). apply Z.leb_le in Hh as ->. simpl.
  by destruct (Platform.GetNftProtoIndex _ id w) as [[e|] w1|w1].
Qed.

Lemma OwnerOf_uncached w id :
  id <> UNKNOWN_TOKEN_PROTOCOL ->
  set_find id (m_nftProtoIndexSet (this w)) = None ->
  OwnerOf id w =
  match GetNftProtoIndexFromDb id w with
  | Ok (Some e) w1 => Ok (tokenProtocolOwnerId (NftProtoPtr e)) w1
  | Ok None w1 => Fault w1
  | Fault w1 => Fault w1
  end.
Proof.
  intros Hid Hf. unfold Platform.OwnerOf. unfold_m.
  rewrite (known_id id Hid). simpl. rewrite Hf.
  by destruct (GetNftProtoIndexFromDb id w) as [[e|] w1|w1].
Qed.

Lemma OwnerOf_cached w id e :
  id <> UNKNOWN_TOKEN_PROTOCOL ->
  set_find id (m_nftProtoIndexSet (this w)) = Some e ->
  OwnerOf id w = Ok (tokenProtocolOwnerId (NftProtoPtr e)) w.
Proof.
  intros Hid Hf. unfold Platform.OwnerOf. unfold_m.
  rewrite (known_id id Hid). simpl. by rewrite Hf.
Qed.

Lemma set_find_cache_fill w e :
  set_find (ProtocolId e) (m_nftProtoIndexSet (this w)) = None ->
  set_find (ProtocolId e) (m_nftProtoIndexSet (this (cache_fill e w))) = Some e.
Proof. intros H. simpl. by apply set_find_insert_eq. Qed.

(** *** Registration *)

Lemma AddNftProto_run w nftProto tx blockIndex :
  tokenProtocolId nftProto <> UNKNOWN_TOKEN_PROTOCOL ->
  IsNull (tokenProtocolOwnerId nftProto) = false ->
  IsNull (GetHash tx) = false ->
  AddNftProto nftProto tx (Some blockIndex) w
  = match set_find (tokenProtocolId nftProto) (m_nftProtoIndexSet (this w)) with
    | Some _ => Ok false w
    | None => Ok true (after_add (mkProtoIndex blockIndex (GetHash tx) nftProto) w)
    end.
Proof.
  intros Hid Hown Htx. unfold Platform.AddNftProto. unfold_m.
  rewrite (known_id _ Hid), Hown, Htx. simpl.
  unfold set_emplace, ProtocolId. simpl.
  destruct (set_find (tokenProtocolId nftProto) (m_nftProtoIndexSet (this w)));
    [by destruct w as [[] ?] | reflexivity].
Qed.

Lemma AddNftProto_fresh w nftProto tx blockIndex :
  tokenProtocolId nftProto <> UNKNOWN_TOKEN_PROTOCOL ->
  IsNull (tokenProtocolOwnerId nftProto) = false ->
  IsNull (GetHash tx) = false ->
  set_find (tokenProtocolId nftProto) (m_nftProtoIndexSet (this w)) = None ->
  AddNftProto nftProto tx (Some blockIndex) w
  = Ok true (after_add (mkProtoIndex blockIndex (GetHash tx) nftProto) w).
Proof. intros Hid Hown Htx Hnone. by rewrite AddNftProto_run, Hnone. Qed.

(** C5. Adding a descriptor whose protocol id is already in the index
    answers [false] and leaves the whole state as it was: the prior entry,
    the counter, and the store (no record and no counter is written). *)
Theorem AddNftProto_duplicate w nftProto tx blockIndex prior :
  tokenProtocolId nftProto <> UNKNOWN_TOKEN_PROTOCOL ->
  IsNull (tokenProtocolOwnerId nftProto) = false ->
  IsNull (GetHash tx) = false ->
  set_find (tokenProtocolId nftProto) (m_nftProtoIndexSet (this w)) = Some prior ->
  AddNftProto nftProto tx (Some blockIndex) w = Ok false w.
Proof.
  intros Hid Hown Htx Hprior. by rewrite AddNftProto_run, Hprior.
Qed.

(** C9. A valid descriptor whose id is not yet in the index is added with
    answer [true], and the lookup of its id right after returns a non-null
    entry that carries this very descriptor (and the block and the
    transaction hash of the registration) and changes nothing. *)
Theorem AddNftProto_then_GetNftProtoIndex w nftProto tx blockIndex :
  tokenProtocolId nftProto <> UNKNOWN_TOKEN_PROTOCOL ->
  IsNull (tokenProtocolOwnerId nftProto) = false ->
  IsNull (GetHash tx) = false ->
  set_find (tokenProtocolId nftProto) (m_nftProtoIndexSet (this w)) = None ->
  exists w1 e,
    AddNftProto nftProto tx (Some blockIndex) w = Ok true w1
    /\ GetNftProtoIndex (tokenProtocolId nftProto) w1 = Ok (Some e) w1
    /\ NftProtoPtr e = nftProto
    /\ BlockIndex e = blockIndex
    /\ RegTxHash e = GetHash tx.
Proof.
  intros Hid Hown Htx Hnone.
  set (e := mkProtoIndex blockIndex (GetHash tx) nftProto).
  exists (after_add e w), e. repeat split.
  - by apply AddNftProto_fresh.
  - apply GetNftProtoIndex_cached; [assumption|].
    simpl. by apply (set_find_insert_eq e).
Qed.

(** *** Retraction *)

(** C6. [Delete(protocolId, height)] answers [true] exactly when the index
    holds an entry with that id whose height is at most [height]; it then
    erases the entry from the index and from the store and writes the
    decremented counter. In every other case it answers [false] and
    changes nothing. The overload without a height passes the tip height. *)
Theorem Delete_spec w protocolId height :
  protocolId <> UNKNOWN_TOKEN_PROTOCOL -> 0 <= height ->
  unique_ids (m_nftProtoIndexSet (this w)) ->
  (match set_find protocolId (m_nftProtoIndexSet (this w)) with
   | Some e =>
       if Height e <=? height
       then Delete protocolId height w = Ok true (after_delete protocolId w)
       else Delete protocolId height w = Ok false w
   | None => Delete protocolId height w = Ok false w
   end)
  /\ set_find protocolId (m_nftProtoIndexSet (this (after_delete protocolId w))) = None
  /\ ReadNftProtoIndex protocolId (platformDb (after_delete protocolId w)) = None
  /\ m_totalProtocolsCount (this (after_delete protocolId w))
     = m_totalProtocolsCount (this w) - 1
  /\ dbTotalProtocolCount (platformDb (after_delete protocolId w))
     = Some (m_totalProtocolsCount (this w) - 1)
  /\ (forall id, id <> protocolId ->
        set_find id (m_nftProtoIndexSet (this (after_delete protocolId w)))
        = set_find id (m_nftProtoIndexSet (this w))
        /\ ReadNftProtoIndex id (platformDb (after_delete protocolId w))
           = ReadNftProtoIndex id (platformDb w))
  /\ Delete_tip protocolId w = Delete protocolId (m_tipHeight (this w)) w.
Proof.
  intros Hid Hh Huniq. repeat split.
  - unfold Platform.Delete. unfold_m.
    rewrite (known_id _ Hid). apply Z.leb_le in Hh as ->. simpl.
    destruct (set_find protocolId (m_nftProtoIndexSet (this w))) as [e|]; [|reflexivity].
    destruct (Height e <=? height); reflexivity.
  - simpl. by apply set_find_erase_eq.
  - unfold ReadNftProtoIndex. simpl. apply lookup_delete_eq.
  - simpl. by apply set_find_erase_ne.
  - unfold ReadNftProtoIndex. simpl. by apply lookup_delete_ne.
Qed.

(** The store plays no part in [Delete]: an id the index does not hold is
    not deleted, whatever the store holds under it. *)
Lemma Delete_uncached w protocolId height :
  protocolId <> UNKNOWN_TOKEN_PROTOCOL -> 0 <= height ->
  set_find protocolId (m_nftProtoIndexSet (this w)) = None ->
  Delete protocolId height w = Ok false w.
Proof.
  intros Hid Hh Hnone. unfold Platform.Delete. unfold_m.
  rewrite (known_id _ Hid). apply Z.leb_le in Hh as ->. simpl.
  by rewrite Hnone.
Qed.

(** *** Queries *)

(** C7. In a registry with unique ids whose entries agree with the keyed
    store, [Contains(protocolId, height)] answers [true] if and only if
    an entry with that id exists, as an element of the index or as the
    record that the store keeps under the id, whose height is at most
    [height]. *)
Theorem Contains_iff w protocolId height :
  protocolId <> UNKNOWN_TOKEN_PROTOCOL -> 0 <= height ->
  unique_ids (m_nftProtoIndexSet (this w)) ->
  db_keyed (platformDb w) -> index_agrees_with_store w ->
  exists b w1,
    Contains protocolId height w = Ok b w1
    /\ (b = true <->
        exists e,
          ((e ∈ m_nftProtoIndexSet (this w) /\ ProtocolId e = protocolId)
           \/ dbNftProtoIndex (platformDb w) !! protocolId = Some e)
          /\ Height e <= height).
Proof.
  intros Hid Hh Huniq Hkeyed Hagree. rewrite Contains_lookup by assumption.
  destruct (set_find protocolId (m_nftProtoIndexSet (this w))) as [e|] eqn:Hf.
  - rewrite (GetNftProtoIndex_cached w protocolId e) by assumption.
    destruct (set_find_Some _ _ _ Hf) as [Hkey Hin].
    exists (Height e <=? height), w. split; [reflexivity|].
    rewrite Z.leb_le. split.
    + intros Hle. exists e. split; [by left | assumption].
    + intros (e' & [[Hin' Hkey']|Hdb] & Hle).
      * apply (set_find_elem _ _ Huniq) in Hin'. rewrite Hkey' in Hin'. congruence.
      * rewrite <- Hkey in Hdb. by rewrite (Hagree e e' Hin Hdb).
  - rewrite GetNftProtoIndex_uncached by assumption.
    assert (forall e', e' ∈ m_nftProtoIndexSet (this w) -> ProtocolId e' <> protocolId)
      as Hnot.
    { intros e' Hin' Hkey'. apply set_find_None in Hf. apply Hf.
      rewrite <- Hkey'. by apply list_elem_of_fmap_2. }
    destruct (ReadNftProtoIndex protocolId (platformDb w)) as [e|] eqn:Hdb.
    + pose proof (Hkeyed protocolId e Hdb) as Hkey.
      rewrite (FromDb_hit w protocolId e) by (by rewrite ?Hkey).
      exists (Height e <=? height), (cache_fill e w). split; [reflexivity|].
      rewrite Z.leb_le. unfold ReadNftProtoIndex in Hdb. split.
      * intros Hle. exists e. split; [by right | assumption].
      * intros (e' & [[Hin' Hkey']|Hdb'] & Hle); [by destruct (Hnot e' Hin')|].
        congruence.
    + rewrite FromDb_miss by assumption.
      exists false, w. split; [reflexivity|].
      split; [discriminate|]. unfold ReadNftProtoIndex in Hdb.
      intros (e' & [[Hin' Hkey']|Hdb'] & _); [by destruct (Hnot e' Hin') | congruence].
Qed.

(** In a well-formed world the entries of the index agree with the store. *)
Lemma wf_world_agrees w : wf_world w -> index_agrees_with_store w.
Proof.
  intros (Hu & _ & _ & Hc) e e' Hin Hdb.
  apply (Hc (ProtocolId e)); [by apply set_find_elem | exact Hdb].
Qed.

(** C10. For an id that the index does not hold: when the store holds it,
    each of the three queries returns the stored entry's answer and
    leaves the world in which the index has taken that entry, while the
    counter, the tip height, the tip hash and the store are as before;
    when the store does not hold it either, [GetNftProtoIndex] and
    [Contains] return null and [false] in an unchanged world, and
    [OwnerOf] stops at the null dereference, the world unchanged. *)
Theorem query_on_cache_miss w protocolId :
  protocolId <> UNKNOWN_TOKEN_PROTOCOL ->
  set_find protocolId (m_nftProtoIndexSet (this w)) = None ->
  match ReadNftProtoIndex protocolId (platformDb w) with
  | Some e =>
      ProtocolId e = protocolId ->
      GetNftProtoIndex protocolId w = Ok (Some e) (cache_fill e w)
      /\ (forall height, 0 <= height ->
            Contains protocolId height w = Ok (Height e <=? height) (cache_fill e w))
      /\ OwnerOf protocolId w
         = Ok (tokenProtocolOwnerId (NftProtoPtr e)) (cache_fill e w)
      /\ set_find protocolId (m_nftProtoIndexSet (this (cache_fill e w))) = Some e
      /\ m_nftProtoIndexSet (this (cache_fill e w)) ≡ₚ e :: m_nftProtoIndexSet (this w)
      /\ m_totalProtocolsCount (this (cache_fill e w)) = m_totalProtocolsCount (this w)
      /\ m_tipHeight (this (cache_fill e w)) = m_tipHeight (this w)
      /\ m_tipBlockHash (this (cache_fill e w)) = m_tipBlockHash (this w)
      /\ platformDb (cache_fill e w) = platformDb w
  | None =>
      GetNftProtoIndex protocolId w = Ok None w
      /\ (forall height, 0 <= height -> Contains protocolId height w = Ok false w)
      /\ OwnerOf protocolId w = Fault w
  end.
Proof.
  intros Hid Hnone.
  destruct (ReadNftProtoIndex protocolId (platformDb w)) as [e|] eqn:Hdb.
  - intros Hkey.
    assert (GetNftProtoIndexFromDb protocolId w = Ok (Some e) (cache_fill e w)) as Hfill
      by (apply FromDb_hit; [assumption | by rewrite Hkey]).
    assert (GetNftProtoIndex protocolId w = Ok (Some e) (cache_fill e w)) as Hget
      by (by rewrite GetNftProtoIndex_uncached).
    repeat split; try reflexivity.
    + exact Hget.
    + intros height Hh. by rewrite Contains_lookup, Hget.
    + by rewrite OwnerOf_uncached, Hfill.
    + rewrite <- Hkey. apply set_find_cache_fill. by rewrite Hkey.
    + simpl. apply insert_by_height_perm.
  - assert (GetNftProtoIndex protocolId w = Ok None w) as Hget
      by (by rewrite GetNftProtoIndex_uncached, FromDb_miss).
    repeat split.
    + exact Hget.
    + intros height Hh. by rewrite Contains_lookup, Hget.
    + by rewrite OwnerOf_uncached, FromDb_miss.
Qed.

(** *** Well-formedness is kept by every call *)

Lemma FromDb_filled w id r w1 :
  db_keyed (platformDb w) ->
  set_find id (m_nftProtoIndexSet (this w)) = None ->
  GetNftProtoIndexFromDb id w = Ok r w1 -> filled w w1.
Proof.
  intros Hkeyed Hnone.
  destruct (ReadNftProtoIndex id (platformDb w)) as [e|] eqn:Hdb.
  - pose proof (Hkeyed id e Hdb) as Hkey.
    rewrite (FromDb_hit w id e) by (by rewrite ?Hkey).
    intros [= <- <-]. right. exists e. by rewrite Hkey.
  - rewrite FromDb_miss by assumption. intros [= <- <-]. by left.
Qed.

Lemma GetNftProtoIndex_filled w id r w1 :
  db_keyed (platformDb w) -> GetNftProtoIndex id w = Ok r w1 -> filled w w1.
Proof.
  intros Hkeyed. unfold Platform.GetNftProtoIndex. unfold_m.
  destruct (negb (id =? UNKNOWN_TOKEN_PROTOCOL)); [|discriminate]. simpl.
  destruct (set_find id (m_nftProtoIndexSet (this w))) as [e|] eqn:Hf.
  - intros [= <- <-]. by left.
  - by apply FromDb_filled.
Qed.

Lemma Contains_filled w id height b w1 :
  db_keyed (platformDb w) -> Contains id height w = Ok b w1 -> filled w w1.
Proof.
  intros Hkeyed. unfold Platform.Contains. unfold_m.
  destruct (negb (id =? UNKNOWN_TOKEN_PROTOCOL)); [|discriminate].
  destruct (0 <=? height); [|discriminate]. simpl.
  destruct (GetNftProtoIndex id w) as [r w2|w2] eqn:Hget; [|discriminate].
  apply (GetNftProtoIndex_filled w id r w2 Hkeyed) in Hget.
  destruct r; by intros [= <- <-].
Qed.

Lemma OwnerOf_filled w id k w1 :
  db_keyed (platformDb w) -> OwnerOf id w = Ok k w1 -> filled w w1.
Proof.
  intros Hkeyed. unfold Platform.OwnerOf. unfold_m.
  destruct (negb (id =? UNKNOWN_TOKEN_PROTOCOL)); [|discriminate]. simpl.
  destruct (set_find id (m_nftProtoIndexSet (this w))) as [e|] eqn:Hf.
  - intros [= <- <-]. by left.
  - destruct (GetNftProtoIndexFromDb id w) as [r w2|w2] eqn:Hdb; [|discriminate].
    apply (FromDb_filled w id r w2 Hkeyed Hf) in Hdb.
    destruct r; [by intros [= <- <-] | discriminate].
Qed.

Lemma wf_filled w w1 : wf_world w -> filled w w1 -> wf_world w1.
Proof.
  intros (Hu & Hs & Hk & Hc) [->|(e & Hdb & Hnone & ->)]; [done|].
  split_and!; simpl.
  - by apply unique_ids_insert.
  - by apply height_sorted_insert.
  - exact Hk.
  - intros id x x'. simpl.
    destruct (decide (ProtocolId e = id)) as [<-|Hne].
    + rewrite set_find_insert_eq by assumption. congruence.
    + rewrite set_find_insert_ne by assumption. apply Hc.
Qed.

Lemma wf_after_add e w :
  set_find (ProtocolId e) (m_nftProtoIndexSet (this w)) = None ->
  wf_world w -> wf_world (after_add e w).
Proof.
  intros Hnone (Hu & Hs & Hk & Hc). split_and!; simpl.
  - by apply unique_ids_insert.
  - by apply height_sorted_insert.
  - intros k x. simpl. rewrite lookup_insert. case_decide as Heq.
    + by intros [= <-].
    + apply Hk.
  - intros id x x'. unfold ReadNftProtoIndex. simpl.
    destruct (decide (ProtocolId e = id)) as [<-|Hne].
    + rewrite set_find_insert_eq, lookup_insert_eq by assumption. congruence.
    + rewrite set_find_insert_ne, lookup_insert_ne by assumption. apply Hc.
Qed.

Lemma wf_after_delete id w : wf_world w -> wf_world (after_delete id w).
Proof.
  intros (Hu & Hs & Hk & Hc). split_and!; simpl.
  - by apply unique_ids_erase.
  - by apply height_sorted_erase.
  - intros k x. simpl. rewrite lookup_delete. case_decide; [discriminate | apply Hk].
  - intros id' x x'. unfold ReadNftProtoIndex. simpl.
    destruct (decide (id = id')) as [<-|Hne].
    + by rewrite lookup_delete_eq.
    + rewrite set_find_erase_ne, lookup_delete_ne by assumption. apply Hc.
Qed.

(** *** The counter along a sequence of calls *)

Lemma AddNftProto_inv w nftProto tx pindex b w1 :
  AddNftProto nftProto tx pindex w = Ok b w1 ->
  (b = false /\ w1 = w)
  \/ (b = true /\ exists blockIndex,
        set_find (tokenProtocolId nftProto) (m_nftProtoIndexSet (this w)) = None
        /\ w1 = after_add (mkProtoIndex blockIndex (GetHash tx) nftProto) w).
Proof.
  destruct (Z.eq_dec (tokenProtocolId nftProto) UNKNOWN_TOKEN_PROTOCOL) as [Hid|Hid].
  { unfold Platform.AddNftProto. unfold_m.
    apply Z.eqb_eq in Hid as ->. discriminate. }
  destruct (IsNull (tokenProtocolOwnerId nftProto)) eqn:Hown.
  { unfold Platform.AddNftProto. unfold_m.
    rewrite (known_id _ Hid), Hown. discriminate. }
  destruct pindex as [blockIndex|].
  2:{ unfold Platform.AddNftProto. unfold_m.
      rewrite (known_id _ Hid), Hown. discriminate. }
  destruct (IsNull (GetHash tx)) eqn:Htx.
  { unfold Platform.AddNftProto. unfold_m.
    rewrite (known_id _ Hid), Hown, Htx. discriminate. }
  rewrite AddNftProto_run by assumption.
  destruct (set_find (tokenProtocolId nftProto) (m_nftProtoIndexSet (this w)))
    as [prior|] eqn:Hf.
  - intros [= <- <-]. by left.
  - intros [= <- <-]. right. split; [reflexivity|]. by exists blockIndex.
Qed.

Lemma Delete_inv w protocolId height b w1 :
  Delete protocolId height w = Ok b w1 ->
  (b = false /\ w1 = w)
  \/ (b = true /\ w1 = after_delete protocolId w
      /\ is_Some (set_find protocolId (m_nftProtoIndexSet (this w)))).
Proof.
  unfold Platform.Delete. unfold_m.
  destruct (negb (protocolId =? UNKNOWN_TOKEN_PROTOCOL)); [|discriminate].
  destruct (0 <=? height); [|discriminate]. simpl.
  destruct (set_find protocolId (m_nftProtoIndexSet (this w))) as [e|].
  - destruct (Height e <=? height).
    + intros [= <- <-]. right. by eauto.
    + intros [= <- <-]. by left.
  - intros [= <- <-]. by left.
Qed.

Lemma wf_call c t w t1 w1 :
  wf_world w -> call c t w = Ok t1 w1 -> wf_world w1.
Proof.
  intros Hwf. pose proof Hwf as (_ & _ & Hk & _).
  destruct c as [nftProto tx pindex|id h|id|id|id|id h|id|pindex];
    unfold Platform.call, bind, ret.
  - destruct (AddNftProto nftProto tx pindex w) as [b w2|w2] eqn:Hadd; [|discriminate].
    intros [= <- <-].
    apply AddNftProto_inv in Hadd as [[-> ->]|[-> (blockIndex & Hnone & ->)]];
      [assumption | by apply wf_after_add].
  - destruct (Contains id h w) as [b w2|w2] eqn:Hq; [|discriminate].
    intros [= <- <-]. by eapply wf_filled, Contains_filled.
  - unfold Platform.Contains_tip. unfold_m.
    destruct (negb (id =? UNKNOWN_TOKEN_PROTOCOL)); [|discriminate]. simpl.
    destruct (Contains id (m_tipHeight (this w)) w) as [b w2|w2] eqn:Hq; [|discriminate].
    intros [= <- <-]. by eapply wf_filled, Contains_filled.
  - destruct (GetNftProtoIndex id w) as [r w2|w2] eqn:Hq; [|discriminate].
    intros [= <- <-]. by eapply wf_filled, GetNftProtoIndex_filled.
  - destruct (OwnerOf id w) as [k w2|w2] eqn:Hq; [|discriminate].
    intros [= <- <-]. by eapply wf_filled, OwnerOf_filled.
  - destruct (Delete id h w) as [b w2|w2] eqn:Hdel; [|discriminate].
    intros [= <- <-].
    apply Delete_inv in Hdel as [[-> ->]|(-> & -> & _)];
      [assumption | by apply wf_after_delete].
  - unfold Platform.Delete_tip. unfold_m.
    destruct (Delete id (m_tipHeight (this w)) w) as [b w2|w2] eqn:Hdel; [|discriminate].
    intros [= <- <-].
    apply Delete_inv in Hdel as [[-> ->]|(-> & -> & _)];
      [assumption | by apply wf_after_delete].
  - unfold UpdateBlockTip. unfold_m. destruct pindex as [b|]; [|discriminate].
    intros [= <- <-]. exact Hwf.
Qed.

Lemma wf_calls cs : forall t w t1 w1,
  wf_world w -> calls cs t w = Ok t1 w1 -> wf_world w1.
Proof.
  induction cs as [|c r IH]; intros t w t1 w1 Hwf; simpl.
  - unfold ret. by intros [= <- <-].
  - unfold bind. destruct (call c t w) as [t2 w2|w2] eqn:Hcall; [|discriminate].
    intros Hrest. eapply IH; [|exact Hrest]. by eapply wf_call.
Qed.

Lemma FromDb_counted w id :
  counted w -> set_find id (m_nftProtoIndexSet (this w)) = None ->
  GetNftProtoIndexFromDb id w = Ok None w.
Proof.
  intros [_ Hsub] Hnone. apply FromDb_miss.
  destruct (ReadNftProtoIndex id (platformDb w)) as [e|] eqn:Hdb; [|reflexivity].
  destruct (Hsub id) as [e' He']; [by eexists | congruence].
Qed.

Lemma GetNftProtoIndex_counted w id r w1 :
  counted w -> GetNftProtoIndex id w = Ok r w1 -> w1 = w.
Proof.
  intros Hc. unfold Platform.GetNftProtoIndex. unfold_m.
  destruct (negb (id =? UNKNOWN_TOKEN_PROTOCOL)); [|discriminate]. simpl.
  destruct (set_find id (m_nftProtoIndexSet (this w))) as [e|] eqn:Hf.
  - by intros [= <- <-].
  - rewrite FromDb_counted by assumption. by intros [= <- <-].
Qed.

Lemma Contains_counted w id height b w1 :
  counted w -> Contains id height w = Ok b w1 -> w1 = w.
Proof.
  intros Hc. unfold Platform.Contains. unfold_m.
  destruct (negb (id =? UNKNOWN_TOKEN_PROTOCOL)); [|discriminate].
  destruct (0 <=? height); [|discriminate]. simpl.
  destruct (GetNftProtoIndex id w) as [r w2|w2] eqn:Hget; [|discriminate].
  apply (GetNftProtoIndex_counted w id r w2 Hc) in Hget as ->.
  destruct r; by intros [= <- <-].
Qed.

Lemma OwnerOf_counted w id k w1 :
  counted w -> OwnerOf id w = Ok k w1 -> w1 = w.
Proof.
  intros Hc. unfold Platform.OwnerOf. unfold_m.
  destruct (negb (id =? UNKNOWN_TOKEN_PROTOCOL)); [|discriminate]. simpl.
  destruct (set_find id (m_nftProtoIndexSet (this w))) as [e|] eqn:Hf.
  - by intros [= <- <-].
  - rewrite FromDb_counted by assumption. discriminate.
Qed.

Lemma counted_after_add e w :
  set_find (ProtocolId e) (m_nftProtoIndexSet (this w)) = None ->
  counted w -> counted (after_add e w).
Proof.
  intros Hnone [Hcount Hsub]. split; simpl.
  - rewrite length_insert_by_height. lia.
  - intros id. unfold ReadNftProtoIndex. simpl.
    destruct (decide (ProtocolId e = id)) as [<-|Hne].
    + intros _. rewrite set_find_insert_eq by assumption. by eexists.
    + rewrite lookup_insert_ne by assumption.
      rewrite set_find_insert_ne by assumption. apply Hsub.
Qed.

Lemma counted_after_delete id w :
  is_Some (set_find id (m_nftProtoIndexSet (this w))) ->
  counted w -> counted (after_delete id w).
Proof.
  intros [e He] [Hcount Hsub]. split; simpl.
  - rewrite (length_set_erase id _ e He) in Hcount. lia.
  - intros id'. unfold ReadNftProtoIndex. simpl.
    destruct (decide (id = id')) as [<-|Hne].
    + rewrite lookup_delete_eq. by intros [? [=]].
    + rewrite lookup_delete_ne by assumption.
      rewrite set_find_erase_ne by assumption. apply Hsub.
Qed.

Lemma call_counted c t w t1 w1 :
  counted w -> call c t w = Ok t1 w1 ->
  counted w1
  /\ m_totalProtocolsCount (this w1) - m_totalProtocolsCount (this w)
     = balance t1 - balance t.
Proof.
  intros Hc. destruct c as [nftProto tx pindex|id h|id|id|id|id h|id|pindex];
    unfold Platform.call, bind, ret.
  - destruct (AddNftProto nftProto tx pindex w) as [b w2|w2] eqn:Hadd; [|discriminate].
    intros [= <- <-].
    apply AddNftProto_inv in Hadd as [[-> ->]|[-> (blockIndex & Hnone & ->)]].
    + split; [assumption | simpl; lia].
    + split; [by apply counted_after_add | unfold balance; simpl; lia].
  - destruct (Contains id h w) as [b w2|w2] eqn:Hq; [|discriminate].
    intros [= <- <-]. apply (Contains_counted w id h b w2 Hc) in Hq as ->.
    split; [assumption | lia].
  - unfold Platform.Contains_tip. unfold_m.
    destruct (negb (id =? UNKNOWN_TOKEN_PROTOCOL)); [|discriminate]. simpl.
    destruct (Contains id (m_tipHeight (this w)) w) as [b w2|w2] eqn:Hq; [|discriminate].
    intros [= <- <-]. apply (Contains_counted w id _ b w2 Hc) in Hq as ->.
    split; [assumption | lia].
  - destruct (GetNftProtoIndex id w) as [r w2|w2] eqn:Hq; [|discriminate].
    intros [= <- <-]. apply (GetNftProtoIndex_counted w id r w2 Hc) in Hq as ->.
    split; [assumption | lia].
  - destruct (OwnerOf id w) as [k w2|w2] eqn:Hq; [|discriminate].
    intros [= <- <-]. apply (OwnerOf_counted w id k w2 Hc) in Hq as ->.
    split; [assumption | lia].
  - destruct (Delete id h w) as [b w2|w2] eqn:Hdel; [|discriminate].
    intros [= <- <-].
    apply Delete_inv in Hdel as [[-> ->]|(-> & -> & Hsome)].
    + split; [assumption | simpl; lia].
    + split; [by apply counted_after_delete | unfold balance; simpl; lia].
  - unfold Platform.Delete_tip. unfold_m.
    destruct (Delete id (m_tipHeight (this w)) w) as [b w2|w2] eqn:Hdel; [|discriminate].
    intros [= <- <-].
    apply Delete_inv in Hdel as [[-> ->]|(-> & -> & Hsome)].
    + split; [assumption | simpl; lia].
    + split; [by apply counted_after_delete | unfold balance; simpl; lia].
  - unfold UpdateBlockTip. unfold_m. destruct pindex as [b|]; [|discriminate].
    intros [= <- <-]. split; [exact Hc | simpl; lia].
Qed.

Lemma calls_counted cs : forall t w t1 w1,
  counted w -> calls cs t w = Ok t1 w1 ->
  counted w1
  /\ m_totalProtocolsCount (this w1) - m_totalProtocolsCount (this w)
     = balance t1 - balance t.
Proof.
  induction cs as [|c r IH]; intros t w t1 w1 Hc; simpl.
  - unfold ret. intros [= <- <-]. split; [assumption | lia].
  - unfold bind. destruct (call c t w) as [t2 w2|w2] eqn:Hcall; [|discriminate].
    intros Hrest.
    destruct (call_counted c t w t2 w2 Hc Hcall) as [Hc2 Hd2].
    destruct (IH t2 w2 t1 w1 Hc2 Hrest) as [Hc1 Hd1].
    split; [assumption | lia].
Qed.

Lemma construct_emptyDb :
  construct emptyDb
  = mkWorld (mkManager [] 0 default_tipHeight default_tipBlockHash) emptyDb.
Proof. reflexivity. Qed.

(** C8. From the registry constructed over an empty store, after any
    sequence of calls that all returned, the counter is the number of
    [AddNftProto] calls that answered [true] minus the number of [Delete]
    calls that answered [true], and it is the size of the index. *)
Theorem counter_is_adds_minus_deletes cs t w :
  calls cs (mkTally 0 0) (construct emptyDb) = Ok t w ->
  m_totalProtocolsCount (this w) = added t - deleted t
  /\ m_totalProtocolsCount (this w)
     = Z.of_nat (length (m_nftProtoIndexSet (this w))).
Proof.
  intros Hrun.
  assert (counted (construct emptyDb)) as Hc0.
  { split; [reflexivity|]. intros id [e He]. unfold ReadNftProtoIndex in He.
    simpl in He. by rewrite lookup_empty in He. }
  destruct (calls_counted cs _ _ _ _ Hc0 Hrun) as [[Hlen _] Hdiff].
  split; [|exact Hlen]. rewrite construct_emptyDb in Hdiff.
  unfold balance in Hdiff. simpl in Hdiff. lia.
Qed.

(** *** Construction *)

Lemma scan_emplace records : forall s0 s refused,
  scan_records (fun protoIndex s => set_emplace protoIndex s) records s0 = (s, refused) ->
  (unique_ids s0 -> unique_ids s)
  /\ (height_sorted s0 -> height_sorted s)
  /\ (forall id, set_find id s
                 = match set_find id s0 with
                   | Some e => Some e
                   | None => set_find id records
                   end)
  /\ s ++ refused ≡ₚ s0 ++ records.
Proof.
  induction records as [|e r IH]; intros s0 s refused; simpl.
  - intros [= <- <-]. repeat split; try done.
    intros id. by destruct (set_find id s0).
  - unfold set_emplace at 1.
    destruct (set_find (ProtocolId e) s0) as [x|] eqn:Hf.
    + destruct (scan_records _ r s0) as [s2 refused2] eqn:Hscan.
      intros [= <- <-]. destruct (IH _ _ _ Hscan) as (Hu & Hs & Hfind & Hperm).
      repeat split; [assumption | assumption | |].
      * intros id. rewrite Hfind. destruct (set_find id s0) eqn:Hid; [reflexivity|].
        destruct (Z.eqb_spec (ProtocolId e) id) as [<-|_]; [congruence | reflexivity].
      * rewrite <- Permutation_middle, Hperm. apply Permutation_middle.
    + destruct (scan_records _ r (insert_by_height e s0)) as [s2 refused2] eqn:Hscan.
      intros [= <- <-]. destruct (IH _ _ _ Hscan) as (Hu & Hs & Hfind & Hperm).
      repeat split.
      * intros Hu0. by apply Hu, unique_ids_insert.
      * intros Hs0. by apply Hs, height_sorted_insert.
      * intros id. rewrite Hfind.
        destruct (Z.eqb_spec (ProtocolId e) id) as [<-|Hne].
        -- by rewrite set_find_insert_eq, Hf.
        -- rewrite set_find_insert_ne by assumption. reflexivity.
      * rewrite Hperm, insert_by_height_perm. apply Permutation_middle.
Qed.

Lemma set_find_is_Some id (s : NftProtoIndexSet) e :
  e ∈ s -> ProtocolId e = id -> is_Some (set_find id s).
Proof.
  intros Hin <-. destruct (set_find (ProtocolId e) s) eqn:Hf; [by eexists|].
  apply set_find_None in Hf. exfalso. apply Hf. by apply list_elem_of_fmap_2.
Qed.

Lemma db_stream_ids db :
  db_keyed db -> ProtocolId <$> db_stream db = (map_to_list (dbNftProtoIndex db)).*1.
Proof.
  intros Hkeyed. unfold db_stream. rewrite <- list_fmap_compose.
  apply list_fmap_ext. intros i [k e] Hin. simpl.
  apply Hkeyed. by eapply elem_of_map_to_list, list_elem_of_lookup_2.
Qed.

Lemma set_find_db_stream db id :
  db_keyed db -> set_find id (db_stream db) = ReadNftProtoIndex id db.
Proof.
  intros Hkeyed. unfold ReadNftProtoIndex.
  assert (unique_ids (db_stream db)) as Hu.
  { unfold unique_ids. rewrite db_stream_ids by assumption.
    apply NoDup_fst_map_to_list. }
  destruct (dbNftProtoIndex db !! id) as [e|] eqn:Hdb.
  - rewrite <- (Hkeyed id e Hdb). apply set_find_elem; [assumption|].
    unfold db_stream. apply list_elem_of_fmap. exists (id, e).
    split; [reflexivity | by apply elem_of_map_to_list].
  - apply set_find_None. rewrite db_stream_ids by assumption.
    intros Hin. apply list_elem_of_fmap in Hin as ([k e] & -> & Hin).
    apply elem_of_map_to_list in Hin. simpl in Hdb. congruence.
Qed.

(** Every world reached from a registry constructed over a keyed store is
    well formed. *)
Lemma wf_construct db : db_keyed db -> wf_world (construct db).
Proof.
  intros Hkeyed. unfold Platform.construct, NftProtocolsManager_ctor,
    ProcessNftProtoIndexGutsOnly.
  destruct (scan_records _ (db_stream db) []) as [s refused] eqn:Hscan. simpl.
  destruct (scan_emplace _ _ _ _ Hscan) as (Hu & Hs & Hfind & _).
  split_and!; simpl.
  - apply Hu. constructor.
  - apply Hs. constructor.
  - exact Hkeyed.
  - intros id e e'. simpl. rewrite Hfind. simpl.
    rewrite set_find_db_stream by assumption. congruence.
Qed.

Lemma wf_reachable db cs t w :
  db_keyed db -> calls cs (mkTally 0 0) (construct db) = Ok t w -> wf_world w.
Proof. intros Hkeyed. by apply wf_calls, wf_construct. Qed.

Lemma scan_records_until_all {S : Type} (handler : NftProtoIndex -> S -> S * bool)
    (records : list NftProtoIndex) : forall st st1,
  scan_records handler records st = (st1, []) ->
  scan_records_until handler records st = st1.
Proof.
  induction records as [|e r IH]; intros st st1; simpl.
  - by intros [= <-].
  - destruct (handler e st) as [st2 ok].
    destruct (scan_records handler r st2) as [st3 refused] eqn:Hscan.
    destruct ok; [|discriminate]. intros [= <- ->]. by apply IH.
Qed.

(** C4. The constructor takes the counter from the store and hands every
    persisted entry to the index: an entry whose id is already there is
    refused, the scan goes on, and in the end every streamed entry is
    either in the index or among the refused ones, the index answers for
    every persisted id, and it holds, per id, the first entry streamed. A
    store that keeps each record under its own id is loaded whole, with
    no refusal, and then a scan that would end at the first refusal
    builds the same index. *)
Theorem ctor_loads_store db :
  let m := fst (NftProtocolsManager_ctor default_tipHeight default_tipBlockHash db) in
  let refused := snd (NftProtocolsManager_ctor default_tipHeight default_tipBlockHash db) in
  m_totalProtocolsCount m = ReadTotalProtocolCount db 0
  /\ unique_ids (m_nftProtoIndexSet m)
  /\ height_sorted (m_nftProtoIndexSet m)
  /\ m_nftProtoIndexSet m ++ refused ≡ₚ db_stream db
  /\ (forall id, set_find id (m_nftProtoIndexSet m) = set_find id (db_stream db))
  /\ (forall e, e ∈ db_stream db -> is_Some (set_find (ProtocolId e) (m_nftProtoIndexSet m)))
  /\ (forall e, e ∈ refused -> is_Some (set_find (ProtocolId e) (m_nftProtoIndexSet m)))
  /\ (db_keyed db ->
      refused = []
      /\ (forall id, set_find id (m_nftProtoIndexSet m) = ReadNftProtoIndex id db)
      /\ scan_records_until (fun protoIndex s => set_emplace protoIndex s) (db_stream db) []
         = m_nftProtoIndexSet m).
Proof.
  unfold NftProtocolsManager_ctor, ProcessNftProtoIndexGutsOnly.
  destruct (scan_records _ (db_stream db) []) as [s refused] eqn:Hscan. simpl.
  destruct (scan_emplace _ _ _ _ Hscan) as (Hu & Hs & Hfind & Hperm).
  simpl in Hfind, Hperm.
  assert (forall e, e ∈ db_stream db -> is_Some (set_find (ProtocolId e) s)) as Hall.
  { intros e He. rewrite Hfind. by eapply set_find_is_Some. }
  assert (forall e, e ∈ refused -> is_Some (set_find (ProtocolId e) s)) as Hrefused.
  { intros e He. apply Hall. rewrite <- Hperm. apply elem_of_app. by right. }
  split_and!; try done.
  - apply Hu. constructor.
  - apply Hs. constructor.
  - intros Hkeyed.
    assert (refused = []) as ->; [|split_and!;
      [reflexivity | intros id; rewrite Hfind; by apply set_find_db_stream
      | by apply scan_records_until_all]].
    destruct refused as [|e r]; [reflexivity|]. exfalso.
    destruct (Hrefused e) as [e' He']; [left|].
    apply set_find_Some in He' as [Hid Hin].
    assert (NoDup (ProtocolId <$> s ++ e :: r)) as Hnd.
    { rewrite Hperm, db_stream_ids by assumption. apply NoDup_fst_map_to_list. }
    rewrite fmap_app, fmap_cons in Hnd. apply NoDup_app in Hnd as (_ & Hdisj & _).
    apply (Hdisj (ProtocolId e)); [|left].
    rewrite <- Hid. by apply list_elem_of_fmap_2.
Qed.

(** *** A store entry that the index has not cached *)


End ManagerClaims.

(** ** Concrete registries *)

Lemma db_keyed_empty : db_keyed emptyDb.
Proof. intros k e H. simpl in H. by rewrite lookup_empty in H. Qed.

Lemma db_keyed_Write e db : db_keyed db -> db_keyed (WriteNftProtoDiskIndex e db).
Proof.
  intros Hk k x. simpl. rewrite lookup_insert. case_decide as Heq.
  - by intros [= <-].
  - apply Hk.
Qed.

Lemma db_keyed_count n db : db_keyed db -> db_keyed (WriteTotalProtocolCount n db).
Proof. exact id. Qed.

Lemma height_sorted_set5 : height_sorted set5.
Proof. unfold height_sorted. apply (bool_decide_unpack _). vm_compute. exact I. Qed.

Lemma unique_ids_set5 : unique_ids set5.
Proof. unfold unique_ids. apply (bool_decide_unpack _). vm_compute. exact I. Qed.

(** C1 (the code at the inputs of the examples). Over the entries at
    heights 1 to 5 with [height = 5] and [count = 2]: with
    [startFrom = 0] the end of the page lies two positions behind the end
    of the container, so the page is undefined, and with [height = 3] the
    same call visits the entries at heights 4 and 5, which are above the
    height asked for; with [startFrom = 2] the visitor sees the heights
    4, 5 and with [startFrom = 4] the heights 2, 3, 4, 5. *)
Theorem page_examples_on_code :
  ProcessNftProtoIndexRangeByHeight (fun _ => true) mgr5 5 2 0 = None
  /\ visited_heights (ProcessNftProtoIndexRangeByHeight (fun _ => true) mgr5 3 2 0)
     = Some [4; 5]
  /\ visited_heights (ProcessNftProtoIndexRangeByHeight (fun _ => true) mgr5 5 2 2)
     = Some [4; 5]
  /\ visited_heights (ProcessNftProtoIndexRangeByHeight (fun _ => true) mgr5 5 2 4)
     = Some [2; 3; 4; 5].
Proof. repeat split; reflexivity. Qed.

(** C2 (the code at the failing input). Over the entries at heights 1 to
    5 with [height = 5] and [startFrom = 10], the visitor sees all five
    entries, for [count = 2] as for [count = 1] and [count = 0]. *)
Theorem page_past_the_end_on_code :
  visited_heights (ProcessNftProtoIndexRangeByHeight (fun _ => true) mgr5 5 2 10)
  = Some [1; 2; 3; 4; 5]
  /\ visited_heights (ProcessNftProtoIndexRangeByHeight (fun _ => true) mgr5 5 1 10)
     = Some [1; 2; 3; 4; 5]
  /\ visited_heights (ProcessNftProtoIndexRangeByHeight (fun _ => true) mgr5 5 0 10)
     = Some [1; 2; 3; 4; 5].
Proof. repeat split; reflexivity. Qed.

Lemma page_visits_window_witness :
  height_sorted (m_nftProtoIndexSet mgr5)
  /\ 0 <= 2
  /\ in_int (2 + 2) = true
  /\ 0 <= dropFromEnd 5 2 2 <= offsetFromEnd 5 2
  /\ (exists logged,
        ProcessNftProtoIndexRangeByHeight (fun _ => true) mgr5 5 2 2
        = Some (page_window (qualified 5 set5) 2 2, logged))
  /\ Height <$> page_window (qualified 5 set5) 2 2 = [4; 5].
Proof.
  assert (0 <= dropFromEnd 5 2 2 <= offsetFromEnd 5 2) as Hdef by (vm_compute; split; discriminate).
  refine (conj height_sorted_set5 (conj _ (conj eq_refl (conj Hdef (conj _ eq_refl)))));
    [lia|].
  exact (proj1 (page_visits_window (fun _ => true) mgr5 5 2 2
                  height_sorted_set5 ltac:(lia) eq_refl Hdef)).
Defined.

Lemma page_empty_or_clamped_witness :
  height_sorted (m_nftProtoIndexSet mgr5)
  /\ 0 <= 2 /\ 0 <= 10 /\ in_int (10 + 2) = true
  /\ 5 <= 10 /\ 5 < 10 + 2
  /\ exists logged,
       ProcessNftProtoIndexRangeByHeight (fun _ => true) mgr5 5 2 10
       = Some (qualified 5 set5, logged).
Proof.
  split_and!; [exact height_sorted_set5 | lia | lia | reflexivity | lia | lia |].
  apply (proj2 (proj2 (page_empty_or_clamped (fun _ => true) mgr5 5 2 10
                         height_sorted_set5 ltac:(lia) ltac:(lia) eq_refl)));
    vm_compute; [intro Hc; discriminate Hc | reflexivity].
Defined.

Lemma AddNftProto_duplicate_witness :
  13 <> 0 /\ IsNull 77 = false /\ IsNull 501 = false
  /\ set_find 13 (m_nftProtoIndexSet (this world5)) = Some (entry_at 13 3)
  /\ AddNftProto 0 (mkProtocol 13 77 "again"%string) (mkTransaction 501)
       (Some (mkBlockIndex 9 1009)) world5
     = Ok false world5.
Proof.
  split_and!; [lia | reflexivity | reflexivity | reflexivity |].
  apply (AddNftProto_duplicate 0 world5 (mkProtocol 13 77 "again"%string)
           (mkTransaction 501) (mkBlockIndex 9 1009) (entry_at 13 3));
    [simpl; lia | reflexivity | reflexivity | reflexivity].
Defined.

Lemma AddNftProto_then_GetNftProtoIndex_witness :
  21 <> 0 /\ IsNull 77 = false /\ IsNull 501 = false
  /\ set_find 21 (m_nftProtoIndexSet (this world5)) = None
  /\ exists w1 e,
       AddNftProto 0 (mkProtocol 21 77 "new"%string) (mkTransaction 501)
         (Some (mkBlockIndex 9 1009)) world5 = Ok true w1
       /\ GetNftProtoIndex 0 21 w1 = Ok (Some e) w1
       /\ NftProtoPtr e = mkProtocol 21 77 "new"%string
       /\ BlockIndex e = mkBlockIndex 9 1009
       /\ RegTxHash e = 501.
Proof.
  split_and!; [lia | reflexivity | reflexivity | reflexivity |].
  apply (AddNftProto_then_GetNftProtoIndex 0 world5 (mkProtocol 21 77 "new"%string)
           (mkTransaction 501) (mkBlockIndex 9 1009));
    [simpl; lia | reflexivity | reflexivity | reflexivity].
Defined.

Lemma Delete_spec_witness :
  13 <> 0 /\ 0 <= 5 /\ unique_ids (m_nftProtoIndexSet (this world5))
  /\ Delete 0 13 5 world5 = Ok true (after_delete 13 world5)
  /\ Delete 0 13 2 world5 = Ok false world5
  /\ set_find 13 (m_nftProtoIndexSet (this (after_delete 13 world5))) = None.
Proof.
  split_and!; [lia | lia | exact unique_ids_set5 | | | ].
  - exact (proj1 (Delete_spec 0 world5 13 5 ltac:(lia) ltac:(lia) unique_ids_set5)).
  - exact (proj1 (Delete_spec 0 world5 13 2 ltac:(lia) ltac:(lia) unique_ids_set5)).
  - exact (proj1 (proj2 (Delete_spec 0 world5 13 5 ltac:(lia) ltac:(lia) unique_ids_set5))).
Defined.

Lemma db_keyed_uncached_world : db_keyed (platformDb uncached_world).
Proof. apply db_keyed_count, db_keyed_Write, db_keyed_empty. Qed.

Lemma cache_coherent_uncached_world : cache_coherent uncached_world.
Proof. intros id e e' H. discriminate H. Qed.

Lemma db_keyed_mixed_world : db_keyed (platformDb mixed_world).
Proof. apply db_keyed_Write, db_keyed_Write, db_keyed_empty. Qed.

Lemma index_agrees_mixed_world : index_agrees_with_store mixed_world.
Proof.
  intros e e' Hin Hdb. apply list_elem_of_In in Hin. vm_compute in Hin.
  destruct Hin as [<-|[<-|[<-|[<-|[<-|[]]]]]]; vm_compute in Hdb;
    first [discriminate Hdb | by injection Hdb as <-].
Qed.

Lemma Contains_iff_witness :
  13 <> 0 /\ 0 <= 5
  /\ unique_ids (m_nftProtoIndexSet (this mixed_world))
  /\ db_keyed (platformDb mixed_world)
  /\ index_agrees_with_store mixed_world
  /\ entry_at 13 3 ∈ m_nftProtoIndexSet (this mixed_world)
  /\ Contains 0 13 5 mixed_world = Ok true mixed_world
  /\ Contains 0 13 2 mixed_world = Ok false mixed_world
  /\ (exists b w1,
        Contains 0 13 5 mixed_world = Ok b w1
        /\ (b = true <->
            exists e,
              ((e ∈ m_nftProtoIndexSet (this mixed_world) /\ ProtocolId e = 13)
               \/ dbNftProtoIndex (platformDb mixed_world) !! 13 = Some e)
              /\ Height e <= 5))
  /\ (exists b w1,
        Contains 0 7 5 mixed_world = Ok b w1
        /\ (b = true <->
            exists e,
              ((e ∈ m_nftProtoIndexSet (this mixed_world) /\ ProtocolId e = 7)
               \/ dbNftProtoIndex (platformDb mixed_world) !! 7 = Some e)
              /\ Height e <= 5)).
Proof.
  split_and!; [lia | lia | exact unique_ids_set5 | exact db_keyed_mixed_world
              | exact index_agrees_mixed_world | | reflexivity | reflexivity | |].
  - apply list_elem_of_In. vm_compute. tauto.
  - apply (Contains_iff 0 mixed_world 13 5);
      [lia | lia | exact unique_ids_set5 | exact db_keyed_mixed_world
      | exact index_agrees_mixed_world].
  - apply (Contains_iff 0 mixed_world 7 5);
      [lia | lia | exact unique_ids_set5 | exact db_keyed_mixed_world
      | exact index_agrees_mixed_world].
Defined.

Lemma query_on_cache_miss_witness :
  7 <> 0
  /\ set_find 7 (m_nftProtoIndexSet (this uncached_world)) = None
  /\ GetNftProtoIndex 0 7 uncached_world
     = Ok (Some (entry_at 7 3)) (cache_fill (entry_at 7 3) uncached_world)
  /\ OwnerOf 0 7 uncached_world = Ok 3007 (cache_fill (entry_at 7 3) uncached_world)
  /\ platformDb (cache_fill (entry_at 7 3) uncached_world) = platformDb uncached_world
  /\ GetNftProtoIndex 0 8 uncached_world = Ok None uncached_world
  /\ OwnerOf 0 8 uncached_world = Fault uncached_world.
Proof.
  pose proof (query_on_cache_miss 0 uncached_world 7 ltac:(lia) eq_refl eq_refl) as H7.
  pose proof (query_on_cache_miss 0 uncached_world 8 ltac:(lia) eq_refl) as H8.
  split_and!; [lia | reflexivity | | | | |].
  - exact (proj1 H7).
  - exact (proj1 (proj2 (proj2 H7))).
  - reflexivity.
  - exact (proj1 H8).
  - exact (proj2 (proj2 H8)).
Defined.

Lemma counter_is_adds_minus_deletes_witness :
  exists t w,
    calls 0 session (mkTally 0 0) (construct 0 0 emptyDb) = Ok t w
    /\ added t = 2 /\ deleted t = 1
    /\ m_totalProtocolsCount (this w) = added t - deleted t
    /\ m_totalProtocolsCount (this w) = Z.of_nat (length (m_nftProtoIndexSet (this w))).
Proof.
  eexists _, _. split; [vm_compute; reflexivity|].
  split; [reflexivity|]. split; [reflexivity|].
  apply (counter_is_adds_minus_deletes 0 0 0 session). vm_compute. reflexivity.
Defined.

(** A colliding record is refused and the scan still loads what follows. *)
Example ctor_on_collision :
  let r := NftProtocolsManager_ctor 0 0 colliding_db in
  ProtocolId <$> db_stream colliding_db = [9; 7; 7]
  /\ Height <$> db_stream colliding_db = [1; 4; 3]
  /\ m_nftProtoIndexSet (fst r) = [entry_at 9 1; entry_at 7 4]
  /\ snd r = [entry_at 7 3]
  /\ m_totalProtocolsCount (fst r) = 2.
Proof. vm_compute. repeat split; reflexivity. Qed.

(** The record of protocol 9 comes after the refused one and is loaded. *)
Example ctor_on_interrupted_stream :
  let r := NftProtocolsManager_ctor 0 0 interrupted_db in
  db_stream interrupted_db = [entry_at 7 4; entry_at 8 2; entry_at 7 3; entry_at 9 1]
  /\ m_nftProtoIndexSet (fst r) = [entry_at 9 1; entry_at 8 2; entry_at 7 4]
  /\ snd r = [entry_at 7 3]
  /\ m_totalProtocolsCount (fst r) = 3.
Proof. vm_compute. repeat split; reflexivity. Qed.

Lemma ctor_loads_store_witness :
  snd (NftProtocolsManager_ctor 0 0 interrupted_db) = [entry_at 7 3]
  /\ m_totalProtocolsCount (fst (NftProtocolsManager_ctor 0 0 interrupted_db)) = 3
  /\ m_nftProtoIndexSet (fst (NftProtocolsManager_ctor 0 0 interrupted_db))
     ++ snd (NftProtocolsManager_ctor 0 0 interrupted_db)
     ≡ₚ db_stream interrupted_db
  /\ (forall e, e ∈ db_stream interrupted_db ->
        is_Some (set_find (ProtocolId e)
                   (m_nftProtoIndexSet (fst (NftProtocolsManager_ctor 0 0 interrupted_db)))))
  /\ set_find 9 (m_nftProtoIndexSet (fst (NftProtocolsManager_ctor 0 0 interrupted_db)))
     = Some (entry_at 9 1).
Proof.
  pose proof (ctor_loads_store 0 0 interrupted_db) as (Hc & _ & _ & Hperm & _ & Hall & _).
  split_and!; [reflexivity | exact Hc | exact Hperm | exact Hall | reflexivity].
Defined.

(** ** The two iteration loops *)

Section Loops.

Implicit Types (protoIndexHandler other : NftProtoIndex -> bool).

Lemma visit_logged protoIndexHandler (l : list NftProtoIndex) :
  snd (visit protoIndexHandler l) = length (refused_by protoIndexHandler l).
Proof.
  unfold refused_by. induction l as [|x r IH]; simpl; [reflexivity|].
  destruct (visit protoIndexHandler r) as [cs logged]. simpl in *.
  rewrite filter_cons. destruct (protoIndexHandler x) eqn:Hx.
  - by rewrite decide_False by discriminate.
  - rewrite decide_True by reflexivity. simpl. by rewrite IH.
Qed.

Lemma visit_pair protoIndexHandler (l : list NftProtoIndex) :
  visit protoIndexHandler l = (l, length (refused_by protoIndexHandler l)).
Proof.
  pose proof (visit_calls protoIndexHandler l) as Hc.
  pose proof (visit_logged protoIndexHandler l) as Hl.
  destruct (visit protoIndexHandler l) as [cs logged]. simpl in *. congruence.
Qed.

Lemma primary_view_perm (s : NftProtoIndexSet) : primary_view s ≡ₚ s.
Proof. apply merge_sort_Permutation. Qed.

(** X1. [ProcessFullNftProtoIndexRange] hands every entry of the index to
    the handler exactly once, whatever the handler answers, and logs one
    line per entry that the handler refuses. *)
Theorem ProcessFull_visits_every_entry protoIndexHandler (m : NftProtocolsManager) :
  fst (ProcessFullNftProtoIndexRange protoIndexHandler m) ≡ₚ m_nftProtoIndexSet m
  /\ length (fst (ProcessFullNftProtoIndexRange protoIndexHandler m))
     = length (m_nftProtoIndexSet m)
  /\ snd (ProcessFullNftProtoIndexRange protoIndexHandler m)
     = length (refused_by protoIndexHandler (m_nftProtoIndexSet m)).
Proof.
  unfold ProcessFullNftProtoIndexRange. rewrite visit_pair. simpl. split_and!.
  - apply primary_view_perm.
  - apply Permutation_length, primary_view_perm.
  - unfold refused_by. apply Permutation_length, filter_Permutation, primary_view_perm.
Qed.

(** X2. The page loop does not stop at a refusal: the entries visited do
    not depend on the handler (another handler sees the same ones), and
    the lines logged are as many as the visited entries it refuses. *)
Theorem page_loop_continues protoIndexHandler (m : NftProtocolsManager)
    (height count startFrom : Z) (visited : list NftProtoIndex) (logged : nat) :
  ProcessNftProtoIndexRangeByHeight protoIndexHandler m height count startFrom
  = Some (visited, logged) ->
  finalRange (m_nftProtoIndexSet m) height count startFrom = Some visited
  /\ logged = length (refused_by protoIndexHandler visited)
  /\ forall other,
       ProcessNftProtoIndexRangeByHeight other m height count startFrom
       = Some (visited, length (refused_by other visited)).
Proof.
  unfold ProcessNftProtoIndexRangeByHeight.
  destruct (finalRange (m_nftProtoIndexSet m) height count startFrom) as [window|];
    [|discriminate].
  simpl. rewrite visit_pair. intros [= <- <-].
  split_and!; [reflexivity | reflexivity |].
  intros other. by rewrite visit_pair.
Qed.

End Loops.

(** ** The edges of a page *)

Section PageEdges.

Implicit Types (s : list NftProtoIndex) (height count startFrom : Z).

Lemma above_range height s :
  height_sorted s ->
  Forall (fun e => height < Height e) (drop (length (range_upto height s)) s).
Proof.
  unfold height_sorted. intros Hs.
  apply Sorted_StronglySorted in Hs; [|intros ???; lia].
  induction s as [|x r IH]; [constructor|].
  rewrite fmap_cons in Hs. apply StronglySorted_inv in Hs as [Hr Hall].
  cbn [range_upto]. destruct (Z.leb_spec (Height x) height) as [Hle|Hgt].
  - simpl. by apply IH.
  - simpl. constructor; [assumption|].
    rewrite Forall_fmap in Hall. eapply Forall_impl; [exact Hall|].
    simpl. intros; lia.
Qed.

(** X3. A page with [0 <= startFrom < count] and [startFrom + count <= n]
    ends behind the range [R]: it is undefined when the index has fewer
    than [count - startFrom] entries above [height], and otherwise it
    consists of the last [startFrom] entries of [R] followed by
    [count - startFrom] entries whose height is above [height]. *)
Theorem page_overruns_range s height count startFrom :
  let n := Z.of_nat (length (qualified height s)) in
  height_sorted s ->
  0 <= startFrom < count -> startFrom + count <= n ->
  in_int (startFrom + count) = true ->
  finalRange s height count startFrom
  = (if decide (n - startFrom + count <= Z.of_nat (length s))
     then Some (take (Z.to_nat count) (drop (Z.to_nat (n - startFrom)) s))
     else None)
  /\ forall window,
       finalRange s height count startFrom = Some window ->
       length window = Z.to_nat count
       /\ take (Z.to_nat startFrom) window
          = drop (Z.to_nat (n - startFrom)) (qualified height s)
       /\ Forall (fun e => height < Height e) (drop (Z.to_nat startFrom) window).
Proof.
  intros n Hs HsF Hsum Hint. subst n.
  rewrite <- (range_upto_qualified height s Hs) in *.
  set (n := Z.of_nat (length (range_upto height s))) in *.
  pose proof (length_range_upto height s) as Hlen.
  assert (finalRange s height count startFrom
          = (if decide (n - startFrom + count <= Z.of_nat (length s))
             then Some (take (Z.to_nat count) (drop (Z.to_nat (n - startFrom)) s))
             else None)) as Hfinal.
  { unfold finalRange. rewrite Hint. fold n.
    assert ((n <? startFrom) = false) as -> by (apply Z.ltb_ge; lia).
    assert ((n <? startFrom + count) = false) as -> by (apply Z.ltb_ge; lia).
    unfold std_prev.
    assert ((0 <=? n - startFrom) && (n - startFrom <=? Z.of_nat (length s)) = true) as ->
      by (apply andb_true_iff; split; apply Z.leb_le; unfold n; lia).
    replace (n - (startFrom - count)) with (n - startFrom + count) by lia.
    destruct (decide (n - startFrom + count <= Z.of_nat (length s))) as [Hfit|Hover].
    - assert ((0 <=? n - startFrom + count)
              && (n - startFrom + count <=? Z.of_nat (length s)) = true) as ->
        by (apply andb_true_iff; split; apply Z.leb_le; lia).
      assert ((Z.to_nat (n - startFrom) <=? Z.to_nat (n - startFrom + count))%nat = true)
        as -> by (apply Nat.leb_le; lia).
      unfold between. do 2 f_equal. lia.
    - assert ((n - startFrom + count <=? Z.of_nat (length s)) = false) as ->
        by (apply Z.leb_gt; lia).
      by rewrite andb_false_r. }
  split; [exact Hfinal|].
  intros window. rewrite Hfinal.
  destruct (decide (n - startFrom + count <= Z.of_nat (length s))) as [Hfit|]; [|discriminate].
  intros [= <-]. split_and!.
  - rewrite length_take, length_drop. unfold n in *. lia.
  - rewrite take_take. replace (Z.to_nat startFrom `min` Z.to_nat count)%nat
      with (Z.to_nat startFrom) by lia.
    rewrite (range_upto_take height s), take_drop_commute.
    do 2 f_equal. unfold n. lia.
  - replace (Z.to_nat count) with (Z.to_nat startFrom + Z.to_nat (count - startFrom))%nat
      by lia.
    rewrite <- take_drop_commute, drop_drop. apply Forall_take.
    replace (Z.to_nat (n - startFrom) + Z.to_nat startFrom)%nat
      with (length (range_upto height s)) by (unfold n; lia).
    by apply above_range.
Qed.

(** X4. A page whose positions are in order visits exactly
    [min n startFrom] entries when [n < startFrom + count], which can be
    more than [count], and exactly [count] entries otherwise. *)
Theorem page_size s height count startFrom :
  let n := Z.of_nat (length (qualified height s)) in
  height_sorted s -> 0 <= startFrom -> in_int (startFrom + count) = true ->
  0 <= dropFromEnd n count startFrom <= offsetFromEnd n startFrom ->
  exists window,
    finalRange s height count startFrom = Some window
    /\ Z.of_nat (length window)
       = if n <? startFrom + count then Z.min n startFrom else count.
Proof.
  intros n Hs HsF Hint Hdef.
  exists (page_window (qualified height s) count startFrom).
  split; [by apply finalRange_window|]. fold n.
  unfold dropFromEnd, offsetFromEnd in Hdef.
  destruct (Z.ltb_spec n (startFrom + count)) as [Hlt|Hge].
  - rewrite page_window_clamped by (fold n; lia). fold n.
    rewrite length_drop. unfold n. lia.
  - rewrite page_window_inner by (fold n; lia). fold n.
    rewrite length_take, length_drop. unfold n in *. lia.
Qed.

End PageEdges.

(** ** Faults, lookups and their composition *)

Section ManagerExtras.

Variable UNKNOWN_TOKEN_PROTOCOL : Z.
Variable default_tipHeight : Z.
Variable default_tipBlockHash : uint256.

Local Abbreviation call := (call UNKNOWN_TOKEN_PROTOCOL).
Local Abbreviation calls := (calls UNKNOWN_TOKEN_PROTOCOL).
Local Abbreviation construct := (construct default_tipHeight default_tipBlockHash).
Local Abbreviation NftProtocolsManager_ctor :=
  (NftProtocolsManager_ctor default_tipHeight default_tipBlockHash).
Local Abbreviation GetNftProtoIndex := (GetNftProtoIndex UNKNOWN_TOKEN_PROTOCOL).
Local Abbreviation Contains := (Contains UNKNOWN_TOKEN_PROTOCOL).
Local Abbreviation Contains_tip := (Contains_tip UNKNOWN_TOKEN_PROTOCOL).
Local Abbreviation OwnerOf := (OwnerOf UNKNOWN_TOKEN_PROTOCOL).
Local Abbreviation AddNftProto := (AddNftProto UNKNOWN_TOKEN_PROTOCOL).
Local Abbreviation Delete := (Delete UNKNOWN_TOKEN_PROTOCOL).
Local Abbreviation Delete_tip := (Delete_tip UNKNOWN_TOKEN_PROTOCOL).

Implicit Types (w : World) (e : NftProtoIndex) (id protocolId height : Z).

(** *** What each operation can leave behind *)

Lemma FromDb_shape w id :
  set_find id (m_nftProtoIndexSet (this w)) = None ->
  match GetNftProtoIndexFromDb id w with
  | Ok (Some _) w1 => grown w w1
  | Ok None w1 => w1 = w
  | Fault w1 => w1 = w
  end.
Proof.
  intros Hnone. unfold GetNftProtoIndexFromDb. unfold_m.
  destruct (ReadNftProtoIndex id (platformDb w)) as [e|] eqn:Hdb; simpl; [|reflexivity].
  unfold set_emplace.
  destruct (set_find (ProtocolId e) (m_nftProtoIndexSet (this w))) eqn:Hf; simpl.
  - by destruct w as [[] ?].
  - right. by exists id, e.
Qed.

Lemma GetNftProtoIndex_shape w id :
  match GetNftProtoIndex id w with
  | Ok (Some _) w1 => grown w w1
  | Ok None w1 => w1 = w
  | Fault w1 => w1 = w
  end.
Proof.
  unfold Platform.GetNftProtoIndex. unfold_m.
  destruct (negb (id =? UNKNOWN_TOKEN_PROTOCOL)); simpl; [|reflexivity].
  destruct (set_find id (m_nftProtoIndexSet (this w))) eqn:Hf;
    [by left | by apply FromDb_shape].
Qed.

Lemma Contains_shape w id height :
  match Contains id height w with
  | Ok _ w1 => grown w w1
  | Fault w1 => w1 = w
  end.
Proof.
  unfold Platform.Contains. unfold_m.
  destruct (negb (id =? UNKNOWN_TOKEN_PROTOCOL)); simpl; [|reflexivity].
  destruct (0 <=? height); simpl; [|reflexivity].
  pose proof (GetNftProtoIndex_shape w id) as Hget.
  destruct (GetNftProtoIndex id w) as [[e|] w1|w1]; simpl;
    [assumption | by left | assumption].
Qed.

Lemma Contains_tip_shape w id :
  match Contains_tip id w with
  | Ok _ w1 => grown w w1
  | Fault w1 => w1 = w
  end.
Proof.
  unfold Platform.Contains_tip. unfold_m.
  destruct (negb (id =? UNKNOWN_TOKEN_PROTOCOL)); simpl; [|reflexivity].
  apply Contains_shape.
Qed.

(** X14. [OwnerOf] is the lookup followed by the dereference of the
    descriptor: it returns the owner of the entry that
    [GetNftProtoIndex] returns, in the same resulting world, and it
    faults exactly where the lookup faults or returns the null index. *)
Theorem OwnerOf_is_lookup_then_owner w protocolId :
  OwnerOf protocolId w =
  match GetNftProtoIndex protocolId w with
  | Ok (Some e) w1 => Ok (tokenProtocolOwnerId (NftProtoPtr e)) w1
  | Ok None w1 => Fault w1
  | Fault w1 => Fault w1
  end.
Proof.
  unfold Platform.OwnerOf, Platform.GetNftProtoIndex. unfold_m.
  destruct (negb (protocolId =? UNKNOWN_TOKEN_PROTOCOL)); simpl; [|reflexivity].
  destruct (set_find protocolId (m_nftProtoIndexSet (this w))); [reflexivity|].
  by destruct (GetNftProtoIndexFromDb protocolId w) as [[e|] w1|w1].
Qed.

Lemma OwnerOf_shape w id :
  match OwnerOf id w with
  | Ok _ w1 => grown w w1
  | Fault w1 => w1 = w
  end.
Proof.
  unfold Platform.OwnerOf. unfold_m.
  destruct (negb (id =? UNKNOWN_TOKEN_PROTOCOL)); simpl; [|reflexivity].
  destruct (set_find id (m_nftProtoIndexSet (this w))) eqn:Hf; [by left|].
  pose proof (FromDb_shape w id Hf) as Hdb.
  by destruct (GetNftProtoIndexFromDb id w) as [[e|] w1|w1].
Qed.

Lemma AddNftProto_fault w nftProto tx pindex :
  add_args_invalid UNKNOWN_TOKEN_PROTOCOL nftProto tx pindex ->
  AddNftProto nftProto tx pindex w = Fault w.
Proof.
  unfold add_args_invalid, Platform.AddNftProto. unfold_m.
  destruct (Z.eqb_spec (tokenProtocolId nftProto) UNKNOWN_TOKEN_PROTOCOL); simpl;
    [reflexivity|].
  destruct (IsNull (tokenProtocolOwnerId nftProto)); simpl; [reflexivity|].
  destruct pindex as [b|]; [|reflexivity].
  destruct (IsNull (GetHash tx)); simpl; [reflexivity|].
  intros [?|[?|[?|?]]]; congruence.
Qed.

Lemma AddNftProto_valid w nftProto tx pindex :
  ~ add_args_invalid UNKNOWN_TOKEN_PROTOCOL nftProto tx pindex ->
  exists blockIndex,
    pindex = Some blockIndex
    /\ AddNftProto nftProto tx pindex w
       = match set_find (tokenProtocolId nftProto) (m_nftProtoIndexSet (this w)) with
         | Some _ => Ok false w
         | None => Ok true (after_add (mkProtoIndex blockIndex (GetHash tx) nftProto) w)
         end.
Proof.
  unfold add_args_invalid. intros Hvalid.
  destruct pindex as [blockIndex|]; [|exfalso; apply Hvalid; auto].
  exists blockIndex. split; [reflexivity|].
  apply AddNftProto_run.
  - intros Heq. apply Hvalid. auto.
  - destruct (IsNull (tokenProtocolOwnerId nftProto)) eqn:Ho; [|reflexivity].
    exfalso. apply Hvalid. auto.
  - destruct (IsNull (GetHash tx)) eqn:Ht; [|reflexivity].
    exfalso. apply Hvalid. auto.
Qed.

Lemma add_args_invalid_dec nftProto tx pindex :
  add_args_invalid UNKNOWN_TOKEN_PROTOCOL nftProto tx pindex
  \/ ~ add_args_invalid UNKNOWN_TOKEN_PROTOCOL nftProto tx pindex.
Proof.
  unfold add_args_invalid.
  destruct (Z.eq_dec (tokenProtocolId nftProto) UNKNOWN_TOKEN_PROTOCOL); [by auto|].
  destruct (IsNull (tokenProtocolOwnerId nftProto)); [by auto|].
  destruct pindex; [|by auto].
  destruct (IsNull (GetHash tx)); [by auto|].
  right. intros [?|[?|[?|?]]]; congruence.
Qed.

Lemma Delete_fault w id height :
  id = UNKNOWN_TOKEN_PROTOCOL \/ height < 0 -> Delete id height w = Fault w.
Proof.
  unfold Platform.Delete. unfold_m.
  destruct (Z.eqb_spec id UNKNOWN_TOKEN_PROTOCOL); simpl; [reflexivity|].
  destruct (Z.leb_spec 0 height); simpl; [|reflexivity].
  intros [?|?]; [congruence | lia].
Qed.

Lemma Delete_cached w id height e :
  id <> UNKNOWN_TOKEN_PROTOCOL -> 0 <= height ->
  set_find id (m_nftProtoIndexSet (this w)) = Some e ->
  Delete id height w
  = if Height e <=? height then Ok true (after_delete id w) else Ok false w.
Proof.
  intros Hid Hh Hf. unfold Platform.Delete. unfold_m.
  rewrite (known_id _ _ Hid). apply Z.leb_le in Hh as ->. simpl.
  rewrite Hf. by destruct (Height e <=? height).
Qed.


(** X6. [AddNftProto] fails an assertion exactly when the protocol id is
    the reserved one, the owner is null, the block is null or the
    transaction hash is null; [Delete] exactly when the id is the reserved
    one or the height is negative. Neither changes the world then. *)
Theorem assertion_faults w nftProto tx pindex protocolId height :
  ((exists w1, AddNftProto nftProto tx pindex w = Fault w1)
   <-> add_args_invalid UNKNOWN_TOKEN_PROTOCOL nftProto tx pindex)
  /\ (add_args_invalid UNKNOWN_TOKEN_PROTOCOL nftProto tx pindex ->
      AddNftProto nftProto tx pindex w = Fault w)
  /\ ((exists w1, Delete protocolId height w = Fault w1)
      <-> protocolId = UNKNOWN_TOKEN_PROTOCOL \/ height < 0)
  /\ (protocolId = UNKNOWN_TOKEN_PROTOCOL \/ height < 0 ->
      Delete protocolId height w = Fault w).
Proof.
  split_and!.
  - split; [|intros H; exists w; by apply AddNftProto_fault].
    intros [w1 Hf].
    destruct (add_args_invalid_dec nftProto tx pindex) as [H|H]; [assumption|].
    destruct (AddNftProto_valid w nftProto tx pindex H) as (b & _ & Hrun).
    rewrite Hrun in Hf.
    by destruct (set_find (tokenProtocolId nftProto) (m_nftProtoIndexSet (this w))).
  - apply AddNftProto_fault.
  - split; [|intros H; exists w; by apply Delete_fault].
    intros [w1 Hf].
    destruct (Z.eq_dec protocolId UNKNOWN_TOKEN_PROTOCOL) as [|Hid]; [by left|].
    destruct (Z.lt_ge_cases height 0) as [|Hh]; [by right|]. exfalso.
    destruct (set_find protocolId (m_nftProtoIndexSet (this w))) as [e|] eqn:Hfind.
    + rewrite (Delete_cached w protocolId height e) in Hf by assumption.
      by destruct (Height e <=? height).
    + by rewrite Delete_uncached in Hf.
  - apply Delete_fault.
Qed.

(** X5. A call that stops at a failed assertion or at the null
    dereference has changed nothing: the world at the fault is the world
    before the call, store included. *)
Theorem fault_changes_nothing (c : Call) (t : Tally) w w1 :
  call c t w = Fault w1 -> w1 = w.
Proof.
  destruct c as [nftProto tx pindex|id h|id|id|id|id h|id|pindex];
    unfold Platform.call, bind, ret.
  - destruct (add_args_invalid_dec nftProto tx pindex) as [H|H].
    + rewrite AddNftProto_fault by assumption. by intros [= <-].
    + destruct (AddNftProto_valid w nftProto tx pindex H) as (b & _ & ->).
      by destruct (set_find (tokenProtocolId nftProto) (m_nftProtoIndexSet (this w))).
  - pose proof (Contains_shape w id h) as Hs.
    destruct (Contains id h w); [discriminate | by intros [= <-]].
  - pose proof (Contains_tip_shape w id) as Hs.
    destruct (Contains_tip id w); [discriminate | by intros [= <-]].
  - pose proof (GetNftProtoIndex_shape w id) as Hs.
    destruct (GetNftProtoIndex id w); [discriminate | by intros [= <-]].
  - pose proof (OwnerOf_shape w id) as Hs.
    destruct (OwnerOf id w); [discriminate | by intros [= <-]].
  - destruct (Delete id h w) as [b w2|w2] eqn:Hdel; [discriminate|].
    intros [= <-]. revert Hdel. unfold Platform.Delete. unfold_m.
    destruct (negb (id =? UNKNOWN_TOKEN_PROTOCOL)); simpl; [|by intros [= <-]].
    destruct (0 <=? h); simpl; [|by intros [= <-]].
    destruct (set_find id (m_nftProtoIndexSet (this w))) as [e|]; [|discriminate].
    by destruct (Height e <=? h).
  - unfold Platform.Delete_tip. unfold_m.
    destruct (Delete id (m_tipHeight (this w)) w) as [b w2|w2] eqn:Hdel; [discriminate|].
    intros [= <-]. revert Hdel. unfold Platform.Delete. unfold_m.
    destruct (negb (id =? UNKNOWN_TOKEN_PROTOCOL)); simpl; [|by intros [= <-]].
    destruct (0 <=? m_tipHeight (this w)); simpl; [|by intros [= <-]].
    destruct (set_find id (m_nftProtoIndexSet (this w))) as [e|]; [|discriminate].
    by destruct (Height e <=? m_tipHeight (this w)).
  - unfold UpdateBlockTip. unfold_m. destruct pindex; [discriminate | by intros [= <-]].
Qed.

Lemma Contains_returns w id height b w1 :
  Contains id height w = Ok b w1 -> id <> UNKNOWN_TOKEN_PROTOCOL /\ 0 <= height.
Proof.
  unfold Platform.Contains. unfold_m.
  destruct (Z.eqb_spec id UNKNOWN_TOKEN_PROTOCOL); simpl; [discriminate|].
  destruct (Z.leb_spec 0 height); simpl; [done | discriminate].
Qed.

(** X7. Visibility is monotone in the height: when
    [Contains(protocolId, height)] answers [true], it answers [true] at
    every greater height, with the same effect on the world. *)
Theorem Contains_monotone w protocolId height height' w1 :
  Contains protocolId height w = Ok true w1 -> height <= height' ->
  Contains protocolId height' w = Ok true w1.
Proof.
  intros Hc Hle. destruct (Contains_returns _ _ _ _ _ Hc) as [Hid Hh].
  rewrite Contains_lookup in Hc |- * by (assumption || lia).
  destruct (Platform.GetNftProtoIndex _ protocolId w) as [[e|] w2|w2];
    [|discriminate|discriminate].
  injection Hc as Hb <-. apply Z.leb_le in Hb.
  assert ((Height e <=? height') = true) as -> by (apply Z.leb_le; lia). reflexivity.
Qed.

(** *** Every call, by what it does to the world *)

Lemma call_inv (c : Call) (t t1 : Tally) w w1 :
  call c t w = Ok t1 w1 ->
  grown w w1
  \/ (exists e, set_find (ProtocolId e) (m_nftProtoIndexSet (this w)) = None
               /\ w1 = after_add e w)
  \/ (exists id, is_Some (set_find id (m_nftProtoIndexSet (this w)))
                /\ w1 = after_delete id w)
  \/ (exists b, c = CallUpdateBlockTip (Some b) /\ w1 = after_tip b w).
Proof.
  destruct c as [nftProto tx pindex|id h|id|id|id|id h|id|pindex];
    unfold Platform.call, bind, ret.
  - destruct (AddNftProto nftProto tx pindex w) as [b w2|w2] eqn:Hadd; [|discriminate].
    intros [= <- <-].
    apply AddNftProto_inv in Hadd as [[-> ->]|[-> (blockIndex & Hnone & ->)]].
    + left. by left.
    + right. left. eexists. split; [|reflexivity]. exact Hnone.
  - pose proof (Contains_shape w id h) as Hs.
    destruct (Contains id h w); [|discriminate]. intros [= <- <-]. by left.
  - pose proof (Contains_tip_shape w id) as Hs.
    destruct (Contains_tip id w); [|discriminate]. intros [= <- <-]. by left.
  - pose proof (GetNftProtoIndex_shape w id) as Hs.
    destruct (GetNftProtoIndex id w) as [[e|] w2|w2]; [| |discriminate];
      intros [= <- <-]; left; [assumption | by left].
  - pose proof (OwnerOf_shape w id) as Hs.
    destruct (OwnerOf id w); [|discriminate]. intros [= <- <-]. by left.
  - destruct (Delete id h w) as [b w2|w2] eqn:Hdel; [|discriminate].
    intros [= <- <-].
    apply Delete_inv in Hdel as [[-> ->]|(-> & -> & Hsome)].
    + left. by left.
    + right. right. left. by exists id.
  - unfold Platform.Delete_tip. unfold_m.
    destruct (Delete id (m_tipHeight (this w)) w) as [b w2|w2] eqn:Hdel; [|discriminate].
    intros [= <- <-].
    apply Delete_inv in Hdel as [[-> ->]|(-> & -> & Hsome)].
    + left. by left.
    + right. right. left. by exists id.
  - unfold UpdateBlockTip. unfold_m. destruct pindex as [b|]; [|discriminate].
    intros [= <- <-]. right. right. right. by exists b.
Qed.

(** X15. The tip moves only through [UpdateBlockTip]: every other call
    that returns leaves the tip height and the tip hash as they were, and
    [UpdateBlockTip] on a block sets them to the block's height and hash
    and touches neither the index, nor the counter, nor the store. *)
Theorem tip_moves_only_by_UpdateBlockTip (c : Call) (t t1 : Tally) w w1 :
  call c t w = Ok t1 w1 ->
  match c with
  | CallUpdateBlockTip pindex =>
      exists b, pindex = Some b
        /\ m_tipHeight (this w1) = nHeight b
        /\ m_tipBlockHash (this w1) = GetBlockHash b
        /\ m_nftProtoIndexSet (this w1) = m_nftProtoIndexSet (this w)
        /\ m_totalProtocolsCount (this w1) = m_totalProtocolsCount (this w)
        /\ platformDb w1 = platformDb w
  | _ =>
      m_tipHeight (this w1) = m_tipHeight (this w)
      /\ m_tipBlockHash (this w1) = m_tipBlockHash (this w)
  end.
Proof.
  intros Hcall.
  destruct c as [nftProto tx pindex|id h|id|id|id|id h|id|pindex].
  8:{ revert Hcall. unfold Platform.call, bind, ret, UpdateBlockTip. unfold_m.
      destruct pindex as [b|]; [|discriminate]. intros [= <- <-]. by exists b. }
  all: destruct (call_inv _ t t1 w w1 Hcall)
    as [[->|(id' & e & _ & _ & _ & ->)]|[(e & _ & ->)|[(id' & _ & ->)|(b & Hc & _)]]];
    try discriminate Hc; by simpl.
Qed.

(** *** What the reachable worlds keep *)

Lemma calls_preserve (P : World -> Prop) :
  (forall c t w t1 w1, P w -> call c t w = Ok t1 w1 -> P w1) ->
  forall cs t w t1 w1, P w -> calls cs t w = Ok t1 w1 -> P w1.
Proof.
  intros Hstep. induction cs as [|c r IH]; intros t w t1 w1 HP; simpl.
  - unfold ret. by intros [= <- <-].
  - unfold bind. destruct (call c t w) as [t2 w2|w2] eqn:Hcall; [|discriminate].
    intros Hrest. eapply IH; [|exact Hrest]. by eapply Hstep.
Qed.

Lemma ctor_ordered db :
  unique_ids (m_nftProtoIndexSet (this (construct db)))
  /\ height_sorted (m_nftProtoIndexSet (this (construct db)))
  /\ (forall id, set_find id (m_nftProtoIndexSet (this (construct db)))
                = set_find id (db_stream db))
  /\ counter_synced (construct db).
Proof.
  unfold counter_synced, Platform.construct, Platform.NftProtocolsManager_ctor,
    ProcessNftProtoIndexGutsOnly.
  destruct (scan_records _ (db_stream db) []) as [s refused] eqn:Hscan. simpl.
  destruct (scan_emplace _ _ _ _ Hscan) as (Hu & Hs & Hfind & _).
  split_and!; [apply Hu; constructor | apply Hs; constructor | exact Hfind | reflexivity].
Qed.

(** X11. Over every store, also one that holds records under foreign
    keys, every world reached from the constructed registry has an index
    with unique protocol ids (I1) in ascending height order. *)
Theorem reachable_index_ordered db cs (t0 t : Tally) w :
  calls cs t0 (construct db) = Ok t w ->
  unique_ids (m_nftProtoIndexSet (this w))
  /\ height_sorted (m_nftProtoIndexSet (this w)).
Proof.
  apply (calls_preserve
           (fun w => unique_ids (m_nftProtoIndexSet (this w))
                     /\ height_sorted (m_nftProtoIndexSet (this w)))).
  - clear. intros c t w t1 w1 [Hu Hs] Hcall.
    destruct (call_inv c t t1 w w1 Hcall)
      as [[->|(id & e & _ & _ & Hnone & ->)]|[(e & Hnone & ->)|[(id & _ & ->)|(b & _ & ->)]]];
      simpl.
    + done.
    + split; [by apply unique_ids_insert | by apply height_sorted_insert].
    + split; [by apply unique_ids_insert | by apply height_sorted_insert].
    + split; [by apply unique_ids_erase | by apply height_sorted_erase].
    + done.
  - destruct (ctor_ordered db) as (Hu & Hs & _ & _). by split.
Qed.

Lemma steady_construct db : db_keyed db -> steady (construct db).
Proof.
  intros Hkeyed. destruct (ctor_ordered db) as (Hu & _ & Hfind & Hc).
  split_and!; [exact Hu | exact Hkeyed | | exact Hc].
  intros id. rewrite Hfind. by apply set_find_db_stream.
Qed.

Lemma steady_grown w w1 : steady w -> grown w w1 -> w1 = w.
Proof.
  intros (_ & _ & Hm & _) [->|(id & e & Hnone & Hdb & _ & _)]; [reflexivity|].
  rewrite Hm in Hnone. congruence.
Qed.

Lemma steady_call (c : Call) (t t1 : Tally) w w1 :
  steady w -> call c t w = Ok t1 w1 -> steady w1.
Proof.
  intros Hst Hcall. pose proof Hst as (Hu & Hk & Hm & Hc).
  destruct (call_inv c t t1 w w1 Hcall)
    as [Hg|[(e & Hnone & ->)|[(id & _ & ->)|(b & _ & ->)]]].
  - by rewrite (steady_grown w w1 Hst Hg).
  - split_and!; simpl.
    + by apply unique_ids_insert.
    + by apply db_keyed_count, db_keyed_Write.
    + intros id. unfold ReadNftProtoIndex. simpl.
      destruct (decide (ProtocolId e = id)) as [<-|Hne].
      * by rewrite set_find_insert_eq, lookup_insert_eq.
      * rewrite set_find_insert_ne, lookup_insert_ne by assumption. apply Hm.
    + reflexivity.
  - split_and!; simpl.
    + by apply unique_ids_erase.
    + intros k x. simpl. rewrite lookup_delete. case_decide; [discriminate | apply Hk].
    + intros id'. unfold ReadNftProtoIndex. simpl.
      destruct (decide (id = id')) as [<-|Hne].
      * by rewrite set_find_erase_eq, lookup_delete_eq.
      * rewrite set_find_erase_ne, lookup_delete_ne by assumption. apply Hm.
    + reflexivity.
  - done.
Qed.

Lemma steady_reachable db cs (t0 t : Tally) w :
  db_keyed db -> calls cs t0 (construct db) = Ok t w -> steady w.
Proof.
  intros Hkeyed. apply (calls_preserve steady).
  - intros c ? ? ? ?. apply steady_call.
  - by apply steady_construct.
Qed.

(** X12. Over a store that keeps each record under its own id, every
    world reached from the constructed registry has an index that answers
    for every id exactly as the store does; so the fallback to the store
    never finds anything, and no lookup, [Contains] or [OwnerOf] that
    returns changes the world. *)
Theorem reachable_index_mirrors_store db cs (t0 t : Tally) w :
  db_keyed db -> calls cs t0 (construct db) = Ok t w ->
  (forall id, set_find id (m_nftProtoIndexSet (this w))
              = ReadNftProtoIndex id (platformDb w))
  /\ (forall id r w1, GetNftProtoIndex id w = Ok r w1 -> w1 = w)
  /\ (forall id height b w1, Contains id height w = Ok b w1 -> w1 = w)
  /\ (forall id k w1, OwnerOf id w = Ok k w1 -> w1 = w).
Proof.
  intros Hkeyed Hrun. pose proof (steady_reachable db cs t0 t w Hkeyed Hrun) as Hst.
  split_and!.
  - apply Hst.
  - intros id r w1 Hq. pose proof (GetNftProtoIndex_shape w id) as Hs.
    rewrite Hq in Hs. destruct r; [by apply steady_grown | assumption].
  - intros id height b w1 Hq. pose proof (Contains_shape w id height) as Hs.
    rewrite Hq in Hs. by apply steady_grown.
  - intros id k w1 Hq. pose proof (OwnerOf_shape w id) as Hs.
    rewrite Hq in Hs. by apply steady_grown.
Qed.

(** X13. A restart loses nothing: over a keyed store, the registry
    constructed anew from the store of a reached world reads the same
    counter, holds the same entries and answers every lookup of the
    index alike. *)
Theorem restart_recovers_registry db cs (t0 t : Tally) w :
  db_keyed db -> calls cs t0 (construct db) = Ok t w ->
  m_totalProtocolsCount (this (construct (platformDb w)))
  = m_totalProtocolsCount (this w)
  /\ (forall id, set_find id (m_nftProtoIndexSet (this (construct (platformDb w))))
                 = set_find id (m_nftProtoIndexSet (this w)))
  /\ m_nftProtoIndexSet (this (construct (platformDb w))) ≡ₚ m_nftProtoIndexSet (this w).
Proof.
  intros Hkeyed Hrun.
  pose proof (steady_reachable db cs t0 t w Hkeyed Hrun) as (Hu & Hk & Hm & Hc).
  pose proof (steady_construct (platformDb w) Hk) as (Hu' & _ & Hm' & Hc').
  assert (forall id, set_find id (m_nftProtoIndexSet (this (construct (platformDb w))))
                     = set_find id (m_nftProtoIndexSet (this w))) as Hsame.
  { intros id. rewrite Hm'. symmetry. apply Hm. }
  split_and!; [rewrite <- Hc'; exact Hc | exact Hsame |].
  apply NoDup_Permutation.
  - eapply NoDup_fmap_1. exact Hu'.
  - eapply NoDup_fmap_1. exact Hu.
  - intros e. split; intros Hin.
    + apply (set_find_elem _ _ Hu') in Hin. rewrite Hsame in Hin.
      by apply set_find_Some in Hin as [_ ?].
    + apply (set_find_elem _ _ Hu) in Hin. rewrite <- Hsame in Hin.
      by apply set_find_Some in Hin as [_ ?].
Qed.

(** *** Registration and retraction together *)

Lemma set_erase_insert e (s : NftProtoIndexSet) :
  set_find (ProtocolId e) s = None ->
  set_erase (ProtocolId e) (insert_by_height e s) = s.
Proof.
  induction s as [|x r IH]; simpl.
  - by rewrite Z.eqb_refl.
  - destruct (Z.eqb_spec (ProtocolId x) (ProtocolId e)) as [|Hne]; [discriminate|].
    intros Hnone. destruct (Height x <=? Height e); simpl.
    + apply Z.eqb_neq in Hne as ->. by rewrite IH.
    + by rewrite Z.eqb_refl.
Qed.

Lemma Delete_returns w id height b w1 :
  Delete id height w = Ok b w1 -> id <> UNKNOWN_TOKEN_PROTOCOL /\ 0 <= height.
Proof.
  unfold Platform.Delete. unfold_m.
  destruct (Z.eqb_spec id UNKNOWN_TOKEN_PROTOCOL); simpl; [discriminate|].
  destruct (Z.leb_spec 0 height); simpl; [done | discriminate].
Qed.

(** X16. A successful [AddNftProto] makes the protocol visible: right
    after it [OwnerOf] returns the descriptor's owner, and [Contains] at a
    height answers whether the registering block is at most that high,
    both without changing the world. Every other id is answered by index
    and store as before, and the tip stays. *)
Theorem AddNftProto_registers w nftProto tx blockIndex :
  tokenProtocolId nftProto <> UNKNOWN_TOKEN_PROTOCOL ->
  IsNull (tokenProtocolOwnerId nftProto) = false ->
  IsNull (GetHash tx) = false ->
  set_find (tokenProtocolId nftProto) (m_nftProtoIndexSet (this w)) = None ->
  exists w1,
    AddNftProto nftProto tx (Some blockIndex) w = Ok true w1
    /\ OwnerOf (tokenProtocolId nftProto) w1 = Ok (tokenProtocolOwnerId nftProto) w1
    /\ (forall height, 0 <= height ->
          Contains (tokenProtocolId nftProto) height w1
          = Ok (nHeight blockIndex <=? height) w1)
    /\ (forall id, id <> tokenProtocolId nftProto ->
          set_find id (m_nftProtoIndexSet (this w1))
          = set_find id (m_nftProtoIndexSet (this w))
          /\ ReadNftProtoIndex id (platformDb w1) = ReadNftProtoIndex id (platformDb w))
    /\ length (m_nftProtoIndexSet (this w1)) = S (length (m_nftProtoIndexSet (this w)))
    /\ m_tipHeight (this w1) = m_tipHeight (this w)
    /\ m_tipBlockHash (this w1) = m_tipBlockHash (this w).
Proof.
  intros Hid Hown Htx Hnone.
  set (e := mkProtoIndex blockIndex (GetHash tx) nftProto).
  assert (set_find (tokenProtocolId nftProto) (m_nftProtoIndexSet (this (after_add e w)))
          = Some e) as Hf by (simpl; by apply (set_find_insert_eq e)).
  exists (after_add e w). split_and!.
  - by apply AddNftProto_fresh.
  - by rewrite (OwnerOf_cached _ _ _ e).
  - intros height Hh. rewrite Contains_lookup by assumption.
    by rewrite (GetNftProtoIndex_cached _ _ _ e).
  - intros id Hne. split.
    + simpl. apply set_find_insert_ne. unfold ProtocolId. simpl. congruence.
    + unfold ReadNftProtoIndex. simpl. apply lookup_insert_ne.
      unfold ProtocolId. simpl. congruence.
  - simpl. apply length_insert_by_height.
  - reflexivity.
  - reflexivity.
Qed.

(** X8. Registration and retraction undo each other. After a successful
    [AddNftProto] of an id that the store does not hold, [Delete] at a
    height below the registering block answers [false] and changes
    nothing; at any height from the block's on it answers [true] and
    gives back the manager and the store records as they were before the
    registration, with the persisted counter equal to the one in memory. *)
Theorem AddNftProto_then_Delete w nftProto tx blockIndex :
  tokenProtocolId nftProto <> UNKNOWN_TOKEN_PROTOCOL ->
  IsNull (tokenProtocolOwnerId nftProto) = false ->
  IsNull (GetHash tx) = false ->
  set_find (tokenProtocolId nftProto) (m_nftProtoIndexSet (this w)) = None ->
  ReadNftProtoIndex (tokenProtocolId nftProto) (platformDb w) = None ->
  exists w1,
    AddNftProto nftProto tx (Some blockIndex) w = Ok true w1
    /\ (forall height, 0 <= height < nHeight blockIndex ->
          Delete (tokenProtocolId nftProto) height w1 = Ok false w1)
    /\ (forall height, 0 <= height -> nHeight blockIndex <= height ->
          exists w2,
            Delete (tokenProtocolId nftProto) height w1 = Ok true w2
            /\ this w2 = this w
            /\ dbNftProtoIndex (platformDb w2) = dbNftProtoIndex (platformDb w)
            /\ dbTotalProtocolCount (platformDb w2)
               = Some (m_totalProtocolsCount (this w))).
Proof.
  intros Hid Hown Htx Hnone Hdb.
  set (e := mkProtoIndex blockIndex (GetHash tx) nftProto).
  assert (set_find (tokenProtocolId nftProto) (m_nftProtoIndexSet (this (after_add e w)))
          = Some e) as Hf by (simpl; by apply (set_find_insert_eq e)).
  exists (after_add e w). split_and!.
  - by apply AddNftProto_fresh.
  - intros height [Hh Hlt]. rewrite (Delete_cached _ _ _ e) by assumption.
    assert ((Height e <=? height) = false) as -> by (apply Z.leb_gt; exact Hlt).
    reflexivity.
  - intros height Hh Hle. rewrite (Delete_cached _ _ _ e) by assumption.
    assert ((Height e <=? height) = true) as -> by (apply Z.leb_le; exact Hle).
    eexists. split; [reflexivity|]. split_and!.
    + simpl. change (tokenProtocolId nftProto) with (ProtocolId e).
      rewrite set_erase_insert by exact Hnone.
      destruct w as [[s c th tb] db]. simpl. f_equal. lia.
    + simpl. change (tokenProtocolId nftProto) with (ProtocolId e).
      rewrite delete_insert_eq. by apply delete_id.
    + simpl. f_equal. lia.
Qed.

(** X9. [AddNftProto] looks for the id in the index only. For an id that
    the store holds and the index does not, it answers [true], replaces
    the stored record and increments the counter, so the counter grows
    while the store holds as many records as before. *)
Theorem AddNftProto_over_stored_id w nftProto tx blockIndex stored :
  tokenProtocolId nftProto <> UNKNOWN_TOKEN_PROTOCOL ->
  IsNull (tokenProtocolOwnerId nftProto) = false ->
  IsNull (GetHash tx) = false ->
  set_find (tokenProtocolId nftProto) (m_nftProtoIndexSet (this w)) = None ->
  ReadNftProtoIndex (tokenProtocolId nftProto) (platformDb w) = Some stored ->
  exists w1,
    AddNftProto nftProto tx (Some blockIndex) w = Ok true w1
    /\ ReadNftProtoIndex (tokenProtocolId nftProto) (platformDb w1)
       = Some (mkProtoIndex blockIndex (GetHash tx) nftProto)
    /\ size (dbNftProtoIndex (platformDb w1)) = size (dbNftProtoIndex (platformDb w))
    /\ m_totalProtocolsCount (this w1) = m_totalProtocolsCount (this w) + 1
    /\ dbTotalProtocolCount (platformDb w1) = Some (m_totalProtocolsCount (this w) + 1).
Proof.
  intros Hid Hown Htx Hnone Hdb.
  eexists. split; [by apply AddNftProto_fresh|]. split_and!; try reflexivity.
  - unfold ReadNftProtoIndex. simpl. apply lookup_insert_eq.
  - simpl. apply map_size_insert_Some. by eexists.
Qed.

(** X10. After a successful [Delete] in a registry with unique ids the
    protocol is gone for every operation: the lookup returns the null
    index, [Contains] and a second [Delete] answer [false] at every
    height, all without changing the world, and [OwnerOf] faults. *)
Theorem Delete_then_gone w protocolId height w1 :
  unique_ids (m_nftProtoIndexSet (this w)) ->
  Delete protocolId height w = Ok true w1 ->
  GetNftProtoIndex protocolId w1 = Ok None w1
  /\ (forall height', 0 <= height' ->
        Contains protocolId height' w1 = Ok false w1
        /\ Delete protocolId height' w1 = Ok false w1)
  /\ OwnerOf protocolId w1 = Fault w1.
Proof.
  intros Hu Hdel. destruct (Delete_returns _ _ _ _ _ Hdel) as [Hid _].
  apply Delete_inv in Hdel as [[[=] _]|(_ & -> & _)].
  assert (set_find protocolId (m_nftProtoIndexSet (this (after_delete protocolId w))) = None)
    as Hnone by (simpl; by apply set_find_erase_eq).
  assert (ReadNftProtoIndex protocolId (platformDb (after_delete protocolId w)) = None)
    as Hdb by (unfold ReadNftProtoIndex; simpl; apply lookup_delete_eq).
  assert (GetNftProtoIndex protocolId (after_delete protocolId w)
          = Ok None (after_delete protocolId w)) as Hget
    by (by rewrite GetNftProtoIndex_uncached, FromDb_miss).
  split_and!.
  - exact Hget.
  - intros height' Hh. split.
    + by rewrite Contains_lookup, Hget.
    + by apply Delete_uncached.
  - by rewrite OwnerOf_uncached, FromDb_miss.
Qed.

(** X17. The overloads without a height follow the tip last reported.
    After [UpdateBlockTip] on a block of height at least zero, for an
    entry that the index holds, [Contains(protocolId)] answers whether the
    entry's height is at most the block's, and [Delete(protocolId)]
    retracts the entry under the same condition and refuses otherwise;
    after a block of negative height both fail the assertion. *)
Theorem overloads_follow_tip w protocolId e b :
  protocolId <> UNKNOWN_TOKEN_PROTOCOL ->
  set_find protocolId (m_nftProtoIndexSet (this w)) = Some e ->
  UpdateBlockTip (Some b) w = Ok tt (after_tip b w)
  /\ (0 <= nHeight b ->
      Contains_tip protocolId (after_tip b w)
      = Ok (Height e <=? nHeight b) (after_tip b w)
      /\ Delete_tip protocolId (after_tip b w)
         = if Height e <=? nHeight b
           then Ok true (after_delete protocolId (after_tip b w))
           else Ok false (after_tip b w))
  /\ (nHeight b < 0 ->
      Contains_tip protocolId (after_tip b w) = Fault (after_tip b w)
      /\ Delete_tip protocolId (after_tip b w) = Fault (after_tip b w)).
Proof.
  intros Hid Hf. split_and!.
  - reflexivity.
  - intros Hh. split.
    + unfold Platform.Contains_tip. unfold_m. rewrite (known_id _ _ Hid). simpl.
      rewrite Contains_lookup by assumption.
      by rewrite (GetNftProtoIndex_cached _ _ _ e).
    + unfold Platform.Delete_tip. unfold_m. simpl.
      by rewrite (Delete_cached _ _ _ e).
  - intros Hneg. split.
    + unfold Platform.Contains_tip, Platform.Contains. unfold_m.
      rewrite (known_id _ _ Hid). simpl.
      by assert ((0 <=? nHeight b) = false) as -> by (apply Z.leb_gt; lia).
    + unfold Platform.Delete_tip. unfold_m. simpl. apply Delete_fault. by right.
Qed.

End ManagerExtras.

(** ** The further properties at concrete registries *)

Example ProcessFull_on_set5 :
  ProcessFullNftProtoIndexRange refuse_height_4 mgr5
  = ([entry_at 11 1; entry_at 12 2; entry_at 13 3; entry_at 14 4; entry_at 15 5], 1%nat).
Proof. reflexivity. Qed.

Lemma page_loop_continues_witness :
  ProcessNftProtoIndexRangeByHeight refuse_height_4 mgr5 5 2 2
  = Some ([entry_at 14 4; entry_at 15 5], 1%nat)
  /\ finalRange (m_nftProtoIndexSet mgr5) 5 2 2 = Some [entry_at 14 4; entry_at 15 5]
  /\ 1%nat = length (refused_by refuse_height_4 [entry_at 14 4; entry_at 15 5])
  /\ forall other,
       ProcessNftProtoIndexRangeByHeight other mgr5 5 2 2
       = Some ([entry_at 14 4; entry_at 15 5],
               length (refused_by other [entry_at 14 4; entry_at 15 5])).
Proof.
  split; [reflexivity|].
  exact (page_loop_continues refuse_height_4 mgr5 5 2 2
           [entry_at 14 4; entry_at 15 5] 1%nat eq_refl).
Defined.

Lemma page_overruns_range_witness :
  height_sorted set5
  /\ 0 <= 0 < 2
  /\ 0 + 2 <= Z.of_nat (length (qualified 3 set5))
  /\ in_int (0 + 2) = true
  /\ finalRange set5 3 2 0 = Some [entry_at 14 4; entry_at 15 5]
  /\ Forall (fun e => 3 < Height e) (drop (Z.to_nat 0) [entry_at 14 4; entry_at 15 5]).
Proof.
  assert (0 + 2 <= Z.of_nat (length (qualified 3 set5))) as Hsum
    by (vm_compute; intro Hc; discriminate Hc).
  pose proof (page_overruns_range set5 3 2 0 height_sorted_set5 ltac:(lia) Hsum eq_refl)
    as [_ Hwin].
  refine (conj height_sorted_set5 (conj _ (conj Hsum (conj eq_refl (conj eq_refl _)))));
    [lia|].
  exact (proj2 (proj2 (Hwin [entry_at 14 4; entry_at 15 5] eq_refl))).
Defined.

Lemma page_size_witness :
  height_sorted set5
  /\ 0 <= 4
  /\ in_int (4 + 2) = true
  /\ exists window,
       finalRange set5 5 2 4 = Some window
       /\ Z.of_nat (length window)
          = if Z.of_nat (length (qualified 5 set5)) <? 4 + 2
            then Z.min (Z.of_nat (length (qualified 5 set5))) 4 else 2.
Proof.
  refine (conj height_sorted_set5 (conj _ (conj eq_refl _))); [lia|].
  apply (page_size set5 5 2 4 height_sorted_set5); [lia | reflexivity |].
  vm_compute. split; intro Hc; discriminate Hc.
Defined.

Lemma fault_changes_nothing_witness :
  call 0 (CallOwnerOf 8) (mkTally 0 0) uncached_world = Fault uncached_world
  /\ call 0 (CallDelete 7 (-1)) (mkTally 0 0) uncached_world = Fault uncached_world
  /\ uncached_world = uncached_world.
Proof.
  split; [reflexivity|]. split; [reflexivity|].
  exact (fault_changes_nothing 0 (CallOwnerOf 8) (mkTally 0 0)
           uncached_world uncached_world eq_refl).
Defined.

Lemma Contains_monotone_witness :
  Contains 0 7 3 uncached_world = Ok true (cache_fill (entry_at 7 3) uncached_world)
  /\ 3 <= 9
  /\ Contains 0 7 9 uncached_world = Ok true (cache_fill (entry_at 7 3) uncached_world).
Proof.
  split; [reflexivity|]. split; [lia|].
  exact (Contains_monotone 0 uncached_world 7 3 9 _ eq_refl ltac:(lia)).
Defined.

Lemma tip_moves_only_by_UpdateBlockTip_witness :
  call 0 (CallContains 7 5) (mkTally 0 0) uncached_world
  = Ok (mkTally 0 0) (cache_fill (entry_at 7 3) uncached_world)
  /\ m_tipHeight (this (cache_fill (entry_at 7 3) uncached_world))
     = m_tipHeight (this uncached_world)
  /\ m_tipBlockHash (this (cache_fill (entry_at 7 3) uncached_world))
     = m_tipBlockHash (this uncached_world).
Proof.
  split; [reflexivity|].
  exact (tip_moves_only_by_UpdateBlockTip 0 (CallContains 7 5) (mkTally 0 0) (mkTally 0 0)
           uncached_world (cache_fill (entry_at 7 3) uncached_world) eq_refl).
Defined.

Lemma AddNftProto_registers_witness :
  21 <> 0 /\ IsNull 77 = false /\ IsNull 501 = false
  /\ set_find 21 (m_nftProtoIndexSet (this world5)) = None
  /\ exists w1,
       AddNftProto 0 (mkProtocol 21 77 "new"%string) (mkTransaction 501)
         (Some (mkBlockIndex 9 1009)) world5 = Ok true w1
       /\ OwnerOf 0 21 w1 = Ok 77 w1
       /\ Contains 0 21 8 w1 = Ok false w1
       /\ Contains 0 21 9 w1 = Ok true w1.
Proof.
  split_and!; [lia | reflexivity | reflexivity | reflexivity |].
  destruct (AddNftProto_registers 0 world5 (mkProtocol 21 77 "new"%string)
              (mkTransaction 501) (mkBlockIndex 9 1009))
    as (w1 & Hadd & Hown & Hcont & _);
    [simpl; lia | reflexivity | reflexivity | reflexivity |].
  exists w1. split_and!; [exact Hadd | exact Hown | |].
  - exact (Hcont 8 ltac:(lia)).
  - exact (Hcont 9 ltac:(lia)).
Defined.

Lemma AddNftProto_then_Delete_witness :
  21 <> 0 /\ IsNull 77 = false /\ IsNull 501 = false
  /\ set_find 21 (m_nftProtoIndexSet (this world5)) = None
  /\ ReadNftProtoIndex 21 (platformDb world5) = None
  /\ exists w1 w2,
       AddNftProto 0 (mkProtocol 21 77 "new"%string) (mkTransaction 501)
         (Some (mkBlockIndex 9 1009)) world5 = Ok true w1
       /\ Delete 0 21 8 w1 = Ok false w1
       /\ Delete 0 21 9 w1 = Ok true w2
       /\ this w2 = this world5
       /\ dbNftProtoIndex (platformDb w2) = dbNftProtoIndex (platformDb world5).
Proof.
  split_and!; [lia | reflexivity | reflexivity | reflexivity | reflexivity |].
  destruct (AddNftProto_then_Delete 0 world5 (mkProtocol 21 77 "new"%string)
              (mkTransaction 501) (mkBlockIndex 9 1009))
    as (w1 & Hadd & Hlow & Hhigh);
    [simpl; lia | reflexivity | reflexivity | reflexivity | reflexivity |].
  destruct (Hhigh 9 ltac:(lia) ltac:(simpl; lia)) as (w2 & Hdel & Hthis & Hrecs & _).
  exists w1, w2. split_and!; [exact Hadd | | exact Hdel | exact Hthis | exact Hrecs].
  apply Hlow. simpl. lia.
Defined.

Lemma AddNftProto_over_stored_id_witness :
  7 <> 0 /\ IsNull 77 = false /\ IsNull 501 = false
  /\ set_find 7 (m_nftProtoIndexSet (this uncached_world)) = None
  /\ ReadNftProtoIndex 7 (platformDb uncached_world) = Some (entry_at 7 3)
  /\ exists w1,
       AddNftProto 0 (mkProtocol 7 77 "again"%string) (mkTransaction 501)
         (Some (mkBlockIndex 9 1009)) uncached_world = Ok true w1
       /\ size (dbNftProtoIndex (platformDb w1)) = 1%nat
       /\ m_totalProtocolsCount (this w1) = 2.
Proof.
  split_and!; [lia | reflexivity | reflexivity | reflexivity | reflexivity |].
  destruct (AddNftProto_over_stored_id 0 uncached_world (mkProtocol 7 77 "again"%string)
              (mkTransaction 501) (mkBlockIndex 9 1009) (entry_at 7 3))
    as (w1 & Hadd & _ & Hsize & Hcount & _);
    [simpl; lia | reflexivity | reflexivity | reflexivity | reflexivity |].
  exists w1. split_and!; [exact Hadd | | exact Hcount].
  rewrite Hsize. reflexivity.
Defined.

Lemma Delete_then_gone_witness :
  unique_ids (m_nftProtoIndexSet (this world5))
  /\ Delete 0 13 5 world5 = Ok true (after_delete 13 world5)
  /\ GetNftProtoIndex 0 13 (after_delete 13 world5) = Ok None (after_delete 13 world5)
  /\ Delete 0 13 5 (after_delete 13 world5) = Ok false (after_delete 13 world5)
  /\ OwnerOf 0 13 (after_delete 13 world5) = Fault (after_delete 13 world5).
Proof.
  pose proof (Delete_then_gone 0 world5 13 5 (after_delete 13 world5)
                unique_ids_set5 eq_refl) as (Hget & Hall & Hown).
  split_and!; [exact unique_ids_set5 | reflexivity | exact Hget | | exact Hown].
  exact (proj2 (Hall 5 ltac:(lia))).
Defined.

Lemma reachable_index_ordered_witness :
  exists t w,
    calls 0 session (mkTally 0 0) (construct 0 0 colliding_db) = Ok t w
    /\ unique_ids (m_nftProtoIndexSet (this w))
    /\ height_sorted (m_nftProtoIndexSet (this w)).
Proof.
  eexists _, _. split; [vm_compute; reflexivity|].
  eapply (reachable_index_ordered 0 0 0 colliding_db session (mkTally 0 0)).
  vm_compute. reflexivity.
Defined.

Lemma reachable_index_mirrors_store_witness :
  db_keyed (platformDb uncached_world)
  /\ exists t w,
       calls 0 session (mkTally 0 0) (construct 0 0 (platformDb uncached_world)) = Ok t w
       /\ forall id, set_find id (m_nftProtoIndexSet (this w))
                      = ReadNftProtoIndex id (platformDb w).
Proof.
  split; [exact db_keyed_uncached_world|].
  eexists _, _. split; [vm_compute; reflexivity|].
  eapply (reachable_index_mirrors_store 0 0 0 (platformDb uncached_world) session
            (mkTally 0 0));
    [exact db_keyed_uncached_world | vm_compute; reflexivity].
Defined.

Lemma restart_recovers_registry_witness :
  db_keyed (platformDb uncached_world)
  /\ exists t w,
       calls 0 session (mkTally 0 0) (construct 0 0 (platformDb uncached_world)) = Ok t w
       /\ m_totalProtocolsCount (this (construct 0 0 (platformDb w)))
          = m_totalProtocolsCount (this w)
       /\ forall id,
            set_find id (m_nftProtoIndexSet (this (construct 0 0 (platformDb w))))
            = set_find id (m_nftProtoIndexSet (this w)).
Proof.
  split; [exact db_keyed_uncached_world|].
  eexists _, _. split; [vm_compute; reflexivity|].
  refine (let H := restart_recovers_registry 0 0 0 (platformDb uncached_world) session
                     (mkTally 0 0) _ _ db_keyed_uncached_world _ in
          conj (proj1 H) (proj1 (proj2 H))).
  vm_compute. reflexivity.
Defined.

Lemma overloads_follow_tip_witness :
  13 <> 0
  /\ set_find 13 (m_nftProtoIndexSet (this world5)) = Some (entry_at 13 3)
  /\ Contains_tip 0 13 (after_tip (mkBlockIndex 2 1002) world5)
     = Ok false (after_tip (mkBlockIndex 2 1002) world5)
  /\ Delete_tip 0 13 (after_tip (mkBlockIndex 2 1002) world5)
     = Ok false (after_tip (mkBlockIndex 2 1002) world5).
Proof.
  split; [lia|]. split; [reflexivity|].
  exact (proj1 (proj2 (overloads_follow_tip 0 world5 13 (entry_at 13 3)
                         (mkBlockIndex 2 1002) ltac:(lia) eq_refl))
           ltac:(simpl; lia)).
Defined.


End Platform.
